(** * configfilter: the route store behind the Skipper config filter

    A shallow embedding of the store actor of [spec.go] (the handlers of
    the API requests and the [run] loop that relays route updates to the
    data client) and of the route set functions it is built from
    ([uniqueRoutes], [removeRoutes], [changedRoutes], [routesToIDs],
    [idsToRoutes], [replaceRoutes], [upsertRoutes]).

    Go slices of route pointers are lists of route values: the routes of a
    request are freshly parsed for that request, so no two requests share a
    route object, and the only write through a pointer, [req.routes[0].Id =
    req.id], is written out as an update of the first route of the
    request.  A nil slice and an empty slice are both [[]]; the code only
    ever asks for their length. *)

From Stdlib Require Import List String Bool ZArith Lia.
From Stdlib Require Import Ascii.
Import ListNotations.
Open Scope string_scope.
Open Scope list_scope.

(** ** The part of Skipper's eskip package the store uses *)

Module eskip.

Record Filter := { Name : string }.

(** A route definition: the id and the fields that the store's own
    routes set.  The expression a route prints as ([String()]) is the
    library's serializer, see [Stringer] below. *)
Record Route := {
  Id : string;
  Path : string;
  Filters : list Filter;
  Shunt : bool;
  Backend : string
}.

End eskip.

(** Go's [fmt.Stringer]: [changedRoutes] compares routes by what
    [String()] prints for them.  The printer belongs to eskip, so the
    development is parametric in it. *)
Class Stringer (A : Type) := String_ : A -> string.

(** ** Constants, messages and errors *)

Definition Name : string := "config".
Definition DefaultSelfID : string := "__config".
Definition DefaultRoot : string := ("/" ++ DefaultSelfID)%string.

Inductive error :=
| errMethodNotSupported
| errNotFound
| errUnsupportedMediaType
| errMissedUpdate
| errBadRequest (err : string).

Definition badRequestString (s : string) : error := errBadRequest s.

Module Options.
Record t := { DefaultRoutes : list eskip.Route }.
End Options.

Module response.
Record t := {
  withContent : bool;
  routes : list eskip.Route;
  err : option error
}.
(** The zero value, what a handler returns when it assigns nothing. *)
Definition zero : t := {| withContent := false; routes := []; err := None |}.
End response.

Module request.
Record t := {
  id : string;
  method : string;
  routes : list eskip.Route;
  ids : list string;
  accept : Z;       (* a [responseFormat]; only the filter reads it *)
  pretty : bool
}.
End request.

Module updateMessage.
Record t := {
  routes : list eskip.Route;
  deletedIDs : list string;
  err : option error
}.
Definition zero : t := {| routes := []; deletedIDs := []; err := None |}.
End updateMessage.

(** The state a [Spec] owns.  The logger and the channels are not data:
    the channels appear as the cases of [iteration] below. *)
Module Spec.
Record t := {
  defaults : list eskip.Route;
  routes : list eskip.Route
}.
End Spec.

Definition SelfRoutes : list eskip.Route :=
  [ {| eskip.Id := DefaultSelfID;
       eskip.Path := DefaultRoot;
       eskip.Filters := [ {| eskip.Name := Name |} ];
       eskip.Shunt := true;
       eskip.Backend := "" |};
    {| eskip.Id := (DefaultSelfID ++ "__singleRoute")%string;
       eskip.Path := (DefaultRoot ++ "/:routeid")%string;
       eskip.Filters := [ {| eskip.Name := Name |} ];
       eskip.Shunt := true;
       eskip.Backend := "" |} ].

Definition hasData (m : updateMessage.t) : bool :=
  negb (List.length (updateMessage.routes m) =? 0)%nat
  || negb (List.length (updateMessage.deletedIDs m) =? 0)%nat
  || match updateMessage.err m with Some _ => true | None => false end.

(** ** Route sets *)

(** The inner loops of the set functions: is there a route with this id? *)
Definition hasId (i : string) (r : eskip.Route) : bool := eskip.Id r =? i.

(** The body of the loop of [uniqueRoutes]: [u] is the result so far. *)
Definition unique_step (u : list eskip.Route) (ri : eskip.Route)
  : list eskip.Route :=
  if existsb (hasId (eskip.Id ri)) u then u else u ++ [ri].

Definition uniqueRoutes (r : list eskip.Route) : list eskip.Route :=
  fold_left unique_step r [].

Definition removeRoutes (a b : list eskip.Route) : list eskip.Route :=
  fold_left
    (fun c ai => if existsb (hasId (eskip.Id ai)) b then c else c ++ [ai])
    a [].

Definition routesToIDs (r : list eskip.Route) : list string :=
  map eskip.Id r.

Definition idsToRoutes (ids : list string) (from : list eskip.Route)
  : list eskip.Route :=
  fold_left
    (fun routes id =>
       match find (hasId id) from with
       | Some r => routes ++ [r]
       | None => routes
       end)
    ids [].

Section Store.

Context {route_Stringer : Stringer eskip.Route}.

Definition changedRoutes (prev next : list eskip.Route) : list eskip.Route :=
  fold_left
    (fun changed pi =>
       match find (hasId (eskip.Id pi)) next with
       | Some ni =>
           if negb (String_ ni =? String_ pi) then changed ++ [ni]
           else changed
       | None => changed
       end)
    prev [].

Definition replaceRoutes (prev next : list eskip.Route)
  : list eskip.Route * list eskip.Route * list string :=
  let deletedRoutes := removeRoutes prev next in
  let insertedRoutes := removeRoutes next prev in
  let updatedRoutes := changedRoutes prev next in
  let upserted := insertedRoutes ++ updatedRoutes in
  let deletedIDs := routesToIDs deletedRoutes in
  (next, upserted, deletedIDs).

Definition upsertRoutes (to from : list eskip.Route)
  : list eskip.Route * list eskip.Route :=
  let insertedRoutes := removeRoutes from to in
  let updatedRoutes := changedRoutes to from in
  let upserted := insertedRoutes ++ updatedRoutes in
  let unchangedRoutes := removeRoutes to upserted in
  let next := unchangedRoutes ++ upserted in
  (next, upserted).

(** ** The store (spec.go) *)

Definition New (o : Options.t) : Spec.t :=
  let DefaultRoutes :=
    if (List.length (Options.DefaultRoutes o) =? 0)%nat then SelfRoutes
    else Options.DefaultRoutes o in
  {| Spec.defaults := uniqueRoutes DefaultRoutes; Spec.routes := [] |}.

(** [s.routes = next] *)
Definition setRoutes (s : Spec.t) (next : list eskip.Route) : Spec.t :=
  {| Spec.defaults := Spec.defaults s; Spec.routes := next |}.

(** [req.routes[0].Id = req.id], on a request with at least one route. *)
Definition setFirstId (i : string) (routes : list eskip.Route)
  : list eskip.Route :=
  match routes with
  | [] => []
  | r :: rest =>
      {| eskip.Id := i;
         eskip.Path := eskip.Path r;
         eskip.Filters := eskip.Filters r;
         eskip.Shunt := eskip.Shunt r;
         eskip.Backend := eskip.Backend r |} :: rest
  end.

(** Every handler returns the store it leaves behind, its response and
    the update for the data client; a handler that the code gives only
    one of the two results returns the zero value for the other. *)
Definition handled : Type := Spec.t * response.t * updateMessage.t.

Definition getRoot (s : Spec.t) (req : request.t) : response.t :=
  {| response.withContent := true;
     response.routes := Spec.routes s ++ Spec.defaults s;
     response.err := None |}.

Definition putRoot (s : Spec.t) (req : request.t) : Spec.t * updateMessage.t :=
  let routes := uniqueRoutes (request.routes req) in
  let routes := removeRoutes routes (Spec.defaults s) in
  let '(next, upserted, deletedIDs) := replaceRoutes (Spec.routes s) routes in
  (setRoutes s next,
   {| updateMessage.routes := upserted;
      updateMessage.deletedIDs := deletedIDs;
      updateMessage.err := None |}).

Definition patchInRoot (s : Spec.t) (req : request.t)
  : Spec.t * updateMessage.t :=
  let routes := uniqueRoutes (request.routes req) in
  let routes := removeRoutes routes (Spec.defaults s) in
  let '(next, upserted) := upsertRoutes (Spec.routes s) routes in
  (setRoutes s next,
   {| updateMessage.routes := upserted;
      updateMessage.deletedIDs := [];
      updateMessage.err := None |}).

Definition deleteFromRoot (s : Spec.t) (req : request.t)
  : Spec.t * updateMessage.t :=
  let routes := idsToRoutes (request.ids req) (Spec.routes s) in
  let routes := routes ++ request.routes req in
  let routes := uniqueRoutes routes in
  let routes := removeRoutes routes (Spec.defaults s) in
  let routes := removeRoutes routes (removeRoutes routes (Spec.routes s)) in
  (setRoutes s (removeRoutes (Spec.routes s) routes),
   {| updateMessage.routes := [];
      updateMessage.deletedIDs := routesToIDs routes;
      updateMessage.err := None |}).

Definition get (s : Spec.t) (req : request.t) : response.t :=
  let routes :=
    idsToRoutes [request.id req] (Spec.defaults s ++ Spec.routes s) in
  if (List.length routes =? 0)%nat then
    {| response.withContent := false;
       response.routes := [];
       response.err := Some errNotFound |}
  else
    {| response.withContent := true;
       response.routes := routes;
       response.err := None |}.

Definition withErr (e : error) : response.t :=
  {| response.withContent := false;
     response.routes := [];
     response.err := Some e |}.

Definition put (s : Spec.t) (req : request.t) : handled :=
  if negb (List.length (request.routes req) =? 1)%nat then
    (s, withErr (badRequestString "exactly one route expected"),
     updateMessage.zero)
  else
    let req_routes := setFirstId (request.id req) (request.routes req) in
    let routes := removeRoutes req_routes (Spec.defaults s) in
    if (List.length routes =? 0)%nat then (s, response.zero, updateMessage.zero)
    else
      let '(next, upserted) := upsertRoutes (Spec.routes s) routes in
      (setRoutes s next, response.zero,
       {| updateMessage.routes := upserted;
          updateMessage.deletedIDs := [];
          updateMessage.err := None |}).

Definition patch (s : Spec.t) (req : request.t) : handled :=
  let routes :=
    idsToRoutes [request.id req] (Spec.defaults s ++ Spec.routes s) in
  if (List.length routes =? 0)%nat then
    (s, withErr errNotFound, updateMessage.zero)
  else if negb (List.length (request.routes req) =? 1)%nat then
    (s, withErr (badRequestString "exactly one route expected"),
     updateMessage.zero)
  else
    let routes := removeRoutes routes (Spec.defaults s) in
    if (List.length routes =? 0)%nat then (s, response.zero, updateMessage.zero)
    else
      let req_routes := setFirstId (request.id req) (request.routes req) in
      let '(next, upserted) := upsertRoutes (Spec.routes s) req_routes in
      (setRoutes s next, response.zero,
       {| updateMessage.routes := upserted;
          updateMessage.deletedIDs := [];
          updateMessage.err := None |}).

Definition del (s : Spec.t) (req : request.t) : handled :=
  let routes := idsToRoutes [request.id req] (Spec.routes s) in
  if (List.length routes =? 0)%nat then
    (s, withErr errNotFound, updateMessage.zero)
  else
    (setRoutes s (removeRoutes (Spec.routes s) routes), response.zero,
     {| updateMessage.routes := [];
        updateMessage.deletedIDs := routesToIDs routes;
        updateMessage.err := None |}).

(** The method switches.  A method that no case names leaves both
    results at their zero values. *)
Definition isMethod (m : string) (names : list string) : bool :=
  existsb (String.eqb m) names.

Definition handleRoot (s : Spec.t) (req : request.t) : handled :=
  let m := request.method req in
  if isMethod m ["HEAD"; "GET"] then (s, getRoot s req, updateMessage.zero)
  else if isMethod m ["PUT"; "POST"] then
    let '(s', update) := putRoot s req in (s', response.zero, update)
  else if isMethod m ["PATCH"] then
    let '(s', update) := patchInRoot s req in (s', response.zero, update)
  else if isMethod m ["DELETE"] then
    let '(s', update) := deleteFromRoot s req in (s', response.zero, update)
  else (s, response.zero, updateMessage.zero).

Definition handleIndividual (s : Spec.t) (req : request.t) : handled :=
  let m := request.method req in
  if isMethod m ["HEAD"; "GET"] then (s, get s req, updateMessage.zero)
  else if isMethod m ["PUT"; "POST"] then put s req
  else if isMethod m ["PATCH"] then patch s req
  else if isMethod m ["DELETE"] then del s req
  else (s, response.zero, updateMessage.zero).

Definition handle (s : Spec.t) (req : request.t) : handled :=
  if request.id req =? "" then handleRoot s req
  else handleIndividual s req.

End Store.

(** ** The run loop

    [run] owns the store and two loop variables: [updateRelay], which is
    nil or [s.update], and [updateToSend].  One pass of its [for]/[select]
    takes one ready case.  The callers at the other end of the channels
    ([ServeHTTP], [LoadAll], [LoadUpdate], [Close]) are the environment:
    they decide which cases are offered, the loop decides what each case
    does. *)

Inductive relay := relay_nil | relay_update.

Module actor.
Record t := {
  self : Spec.t;
  updateRelay : relay;
  updateToSend : updateMessage.t;
  stop_closed : bool;   (* [close(s.stop)] has happened *)
  returned : bool       (* [run] has returned *)
}.
End actor.

(** The four cases of the [select]. *)
Inductive selected :=
| case_getAll                       (* [all := <-s.getAll] *)
| case_updateRelay                  (* [updateRelay <- updateToSend] *)
| case_request (req : request.t)    (* [req := <-s.request] *)
| case_stop.                        (* [<-s.stop] *)

(** What a pass of the loop hands to the other side. *)
Inductive effect :=
| reply_all (m : updateMessage.t)   (* [all <- updateMessage{routes: s.routes}] *)
| relayed (u : updateMessage.t)     (* the message [LoadUpdate] receives *)
| responded (rsp : response.t)      (* [req.response <- rsp] *)
| stopped.                          (* [return] *)

Definition missed : updateMessage.t :=
  {| updateMessage.routes := [];
     updateMessage.deletedIDs := [];
     updateMessage.err := Some errMissedUpdate |}.

Section Run.

Context {route_Stringer : Stringer eskip.Route}.

(** [go s.run()]: the loop variables start at their zero values. *)
Definition start (s : Spec.t) : actor.t :=
  {| actor.self := s;
     actor.updateRelay := relay_nil;
     actor.updateToSend := updateMessage.zero;
     actor.stop_closed := false;
     actor.returned := false |}.

(** One pass of the loop.  [None]: the case cannot be taken in this
    state, because the loop has returned, because [updateRelay] is nil (a
    send on a nil channel is never ready), or because [s.stop] is still
    open. *)
Definition iteration (st : actor.t) (c : selected)
  : option (actor.t * effect) :=
  if actor.returned st then None
  else
    match c with
    | case_getAll =>
        Some (st,
              reply_all {| updateMessage.routes := Spec.routes (actor.self st);
                           updateMessage.deletedIDs := [];
                           updateMessage.err := None |})
    | case_updateRelay =>
        match actor.updateRelay st with
        | relay_nil => None
        | relay_update =>
            Some ({| actor.self := actor.self st;
                     actor.updateRelay := relay_nil;
                     actor.updateToSend := actor.updateToSend st;
                     actor.stop_closed := actor.stop_closed st;
                     actor.returned := false |},
                  relayed (actor.updateToSend st))
        end
    | case_request req =>
        let '(s', rsp, update) := handle (actor.self st) req in
        let '(updateRelay, updateToSend) :=
          if hasData update then
            match actor.updateRelay st with
            | relay_nil => (relay_update, update)
            | relay_update => (relay_update, missed)
            end
          else (actor.updateRelay st, actor.updateToSend st) in
        Some ({| actor.self := s';
                 actor.updateRelay := updateRelay;
                 actor.updateToSend := updateToSend;
                 actor.stop_closed := actor.stop_closed st;
                 actor.returned := false |},
              responded rsp)
    | case_stop =>
        if actor.stop_closed st then
          Some ({| actor.self := actor.self st;
                   actor.updateRelay := actor.updateRelay st;
                   actor.updateToSend := actor.updateToSend st;
                   actor.stop_closed := true;
                   actor.returned := true |},
                stopped)
        else None
    end.

(** [run] under a schedule: the cases the [select] is offered, in
    order.  A case that cannot be taken is passed over. *)
Fixpoint run (st : actor.t) (schedule : list selected)
  : actor.t * list effect :=
  match schedule with
  | [] => (st, [])
  | c :: rest =>
      match iteration st c with
      | Some (st', e) => let '(st'', es) := run st' rest in (st'', e :: es)
      | None => run st rest
      end
  end.

(** [LoadAll] at a state of the actor: the loop takes the [getAll] case
    and the caller prepends the defaults.  [None]: the caller stays
    blocked. *)
Definition LoadAll (st : actor.t)
  : option (actor.t * (list eskip.Route * option error)) :=
  match iteration st case_getAll with
  | Some (st', reply_all m) =>
      Some (st',
            (Spec.defaults (actor.self st) ++ updateMessage.routes m,
             updateMessage.err m))
  | _ => None
  end.

(** [LoadUpdate] at a state of the actor: [u := <-s.update] completes
    only when the loop takes the [updateRelay] case; nothing else sends
    on [s.update] and nothing closes it. *)
Definition LoadUpdate (st : actor.t)
  : option (actor.t * (list eskip.Route * list string * option error)) :=
  match iteration st case_updateRelay with
  | Some (st', relayed u) =>
      Some (st',
            (updateMessage.routes u, updateMessage.deletedIDs u,
             updateMessage.err u))
  | _ => None
  end.

(** [Close]: [close(s.stop)].  [None]: closing a closed channel panics. *)
Definition Close (st : actor.t) : option actor.t :=
  if actor.stop_closed st then None
  else
    Some {| actor.self := actor.self st;
            actor.updateRelay := actor.updateRelay st;
            actor.updateToSend := actor.updateToSend st;
            actor.stop_closed := true;
            actor.returned := actor.returned st |}.

(** The states of the actor that a program can reach: [New], then any
    schedule, with [Close] called at any point of it. *)
Inductive reachable : actor.t -> Prop :=
| reachable_New (o : Options.t) : reachable (start (New o))
| reachable_iteration st c st' e :
    reachable st -> iteration st c = Some (st', e) -> reachable st'
| reachable_Close st st' :
    reachable st -> Close st = Some st' -> reachable st'.

End Run.

(** ** Invariants of the store *)

(** No route of the store has the id of a default route. *)
Definition protects_defaults (s : Spec.t) : Prop :=
  forall i,
    In i (routesToIDs (Spec.routes s)) ->
    ~ In i (routesToIDs (Spec.defaults s)).

(** The same for the actor, whose pending update also names no default as
    deleted. *)
Definition actor_protects_defaults (st : actor.t) : Prop :=
  protects_defaults (actor.self st)
  /\ forall i,
       In i (updateMessage.deletedIDs (actor.updateToSend st)) ->
       ~ In i (routesToIDs (Spec.defaults (actor.self st))).

(** ** Sample data

    A printer in the place of eskip's and a few routes, requests and
    actor states, for running the model on. *)

Module Sample.

Definition print_route : Stringer eskip.Route :=
  fun r => (eskip.Path r ++ " -> " ++ eskip.Backend r)%string.

Definition route (i path backend : string) : eskip.Route :=
  {| eskip.Id := i;
     eskip.Path := path;
     eskip.Filters := [];
     eskip.Shunt := false;
     eskip.Backend := backend |}.

Definition foo := route "foo" "/foo" "https://foo.example.org".
Definition foo1 := route "foo" "/foo" "https://foo1.example.org".
Definition bar := route "bar" "/bar" "https://bar.example.org".
Definition baz := route "baz" "/baz" "https://baz.example.org".
Definition self := route DefaultSelfID "/bar" "https://bar".

Definition on_root (method : string) (routes : list eskip.Route)
  (ids : list string) : request.t :=
  {| request.id := "";
     request.method := method;
     request.routes := routes;
     request.ids := ids;
     request.accept := 2;
     request.pretty := true |}.

Definition on_route (i method : string) (routes : list eskip.Route)
  : request.t :=
  {| request.id := i;
     request.method := method;
     request.routes := routes;
     request.ids := [];
     request.accept := 2;
     request.pretty := true |}.

(** A store with the default routes of the package and two routes. *)
Definition store : Spec.t :=
  {| Spec.defaults := SelfRoutes; Spec.routes := [foo; bar] |}.

(** The actor right after [New], with the defaults of the package. *)
Definition idle : actor.t := start (New {| Options.DefaultRoutes := [] |}).

(** The state after a pass of the loop that takes the case [c]. *)
Definition after (st : actor.t) (c : selected) : actor.t :=
  match iteration (route_Stringer := print_route) st c with
  | Some (st', _) => st'
  | None => st
  end.

(** One update pending: [foo] was put and the data client has not
    asked yet. *)
Definition pending : actor.t :=
  after idle (case_request (on_root "PUT" [foo] [])).

(** [Close] was called; then the loop took the stop case. *)
Definition closed : actor.t :=
  match Close idle with Some st => st | None => idle end.

Definition halted : actor.t := after closed case_stop.

End Sample.

(** * The filter

    The HTTP side of the package: what [ServeHTTP] makes of a request
    before it hands it to the loop, and what it writes back.  The request
    is the part of [http.Request] the filter reads, the response is the
    sequence of calls on the [http.ResponseWriter] and the logger. *)

(** ** What the filter uses of other packages *)

Module strings.

(** [strings.Split(s, sep)] for a separator of one byte: the pieces of
    [s] between the separators, one more than there are separators. *)
Fixpoint Split (s : string) (sep : ascii) : list string :=
  match s with
  | EmptyString => [EmptyString]
  | String c rest =>
      if Ascii.eqb c sep then EmptyString :: Split rest sep
      else
        match Split rest sep with
        | piece :: pieces => String c piece :: pieces
        | [] => [String c EmptyString]
        end
  end.

(** [strings.Replace(s, old, "", -1)] for an [old] of one byte: [s]
    without that byte. *)
Fixpoint Remove (s : string) (old : ascii) : string :=
  match s with
  | EmptyString => EmptyString
  | String c rest =>
      if Ascii.eqb c old then Remove rest old else String c (Remove rest old)
  end.

End strings.

Module gdutil.
(** [header.AcceptSpec], one entry of what [ParseAccept] returns.  The
    filter reads the value and never the quality. *)
Record AcceptSpec := { Value : string }.
End gdutil.

Module http.

Definition StatusOK : Z := 200.
Definition StatusBadRequest : Z := 400.
Definition StatusNotFound : Z := 404.
Definition StatusMethodNotAllowed : Z := 405.
Definition StatusUnsupportedMediaType : Z := 415.
Definition StatusInternalServerError : Z := 500.
Definition StatusNotImplemented : Z := 501.

(** What [preprocessRequest] reads of the request. *)
Record Request := {
  Method : string;
  RouteID : string;                   (* [Header.Get("X-Config-RouteID")] *)
  Accept : list gdutil.AcceptSpec;    (* [ParseAccept(Header, "Accept")] *)
  pretty : string;                    (* [URL.Query().Get("pretty")] *)
  ContentType : string;               (* [Header.Get("Content-Type")] *)
  Body : string + string              (* [ioutil.ReadAll(Body)]: the
                                         content, or the error *)
}.

End http.

(** The functions of the strings and eskip packages that the filter calls
    and this development does not define. *)
Class Library := {
  strings_ToLower : string -> string;
  (** [eskip.Parse]: the routes and, when it fails, the error text *)
  eskip_Parse : string -> list eskip.Route * option string;
  (** [eskip.Print(pretty, routes...)] *)
  eskip_Print : bool -> list eskip.Route -> string;
  (** the method [Print(pretty)] of a route *)
  Route_Print : bool -> eskip.Route -> string
}.

(** An [error] in the filter: one of the package's, or the one that
    reading the body returned. *)
Inductive anyError :=
| own (e : error)
| foreign (text : string).

(** The calls of [ServeHTTP] on the response writer and on the logger. *)
Inductive call :=
| Header_Set (key value : string)
| WriteHeader (status : Z)
| Write (p : string)
| log_Error (text : string) (err : anyError).

Definition newline : string := String (ascii_of_nat 10) EmptyString.

Definition APIDescription : string :=
  String.concat newline
    [ "";
      "# Skipper routing table API";
      "";
      "The paths to the config routes can be reconfigured by custom Skipper routing. This help reflects the default";
      "settings where the root path for the config is /__config and the individual routes can be accessed at";
      "/__config/<routeid>.";
      "";
      "In all requests, changes to the default routes that the config filter was initialized with, typically containing";
      "the routes with the config filter itself, are ignored.";
      "";
      "### Root - All routes";
      "";
      "Path: /__config";
      "";
      "OPTIONS: returns this document";
      "HEAD: returns the header of the responses sent to the GET request";
      "";
      "GET:";
      "";
      "Get all route definitions maintined by the configfilter data client in eskip format. If the query parameter";
      "?pretty=false is set, pretty printing is omitted.";
      "";
      "PUT and POST:";
      "";
      "Set the complete routing table. Expects route definitions in eskip format, as text/plain or application/eskip.";
      "Routes missing form the request document and existing in the current routing table will be deleted.";
      "";
      "PATCH: Upsert routes in the routing table. It is like PUT or POST but not deleting existing routes.";
      "";
      "DELETE:";
      "";
      "Deletes routes by ID found in the request payload. Accepts eskip documents with content type text/plain or";
      "application/eskip, where only the ID is used, or it accepts a comma separated list of IDs. IDs that are not";
      "found in the current routing table are ignored. Routes in the default configuration of the filter are not";
      "deleted.";
      "";
      "### Individual routes";
      "";
      "Path: /__config/<routeid>";
      "";
      "OPTIONS: returns this document";
      "HEAD: returns the header of the responses sent to the GET request";
      "";
      "GET:";
      "";
      "Returns the route as a route expression with ID=<routeid>, without the ID. If the query parameter ?pretty=false";
      "is set, pretty printing is omitted.";
      "";
      "PUT and POST:";
      "";
      "Set the route with ID=<routeid>. Expects a single route expression in eskip format. If the payload contains a";
      "route ID, it is ignored, and the ID derived from the path is used. If the route doesn't exist, it gets inserted,";
      "if it exists, it gets updated.";
      "";
      "PATCH: Updates a route if it exists. ";
      "DELETE: Deletes a route if it exists.";
      "" ].

(** ** The response formats *)

Definition responseFormatNone : Z := 0.
Definition responseFormatText : Z := Z.shiftl 1 1.
Definition responseFormatEskip : Z := Z.shiftl 1 2.
Definition responseFormatJSON : Z := Z.shiftl 1 3.

Definition validMethod (method : string) : bool :=
  isMethod method ["OPTIONS"; "HEAD"; "GET"; "PUT"; "POST"; "PATCH"; "DELETE"].

Definition trimTrailingSlash (path : string) : string :=
  if (1 <? String.length path)%nat
     && match String.get (String.length path - 1) path with
        | Some c => Ascii.eqb c "/"%char
        | None => false
        end
  then String.substring 0 (String.length path - 1) path
  else path.

(** The body of the loop of [acceptedMime]. *)
Definition accept_step (f : Z) (ai : gdutil.AcceptSpec) : Z :=
  if (gdutil.Value ai =? "text/json")%string then Z.lor f responseFormatJSON
  else if (gdutil.Value ai =? "application/eskip")%string
       then Z.lor f responseFormatEskip
       else f.

(** [a] is [gdutil.ParseAccept(h, "Accept")]. *)
Definition acceptedMime (method : string) (a : list gdutil.AcceptSpec) : Z :=
  let f := fold_left accept_step a responseFormatNone in
  if (f =? responseFormatNone)%Z then responseFormatText else f.

Definition canUseContent (method id : string) : bool :=
  if isMethod method ["PUT"; "POST"; "PATCH"] then true
  else if isMethod method ["DELETE"] then (id =? "")%string
  else false.

Definition getContentType (method id contentType : string)
  : string * option error :=
  let contentType := nth 0 (strings.Split contentType ";"%char) "" in
  if isMethod contentType [""; "text/plain"; "application/eskip"]
  then (contentType, None)
  else ("", Some errUnsupportedMediaType).

Definition decideContentType (f : Z) : Z * string :=
  if negb (Z.land f responseFormatJSON =? 0)%Z
  then (responseFormatJSON, "text/json")
  else if negb (Z.land f responseFormatEskip =? 0)%Z
       then (responseFormatEskip, "application/eskip")
       else (responseFormatText, "text/plain").

(** The request before [preprocessRequest] fills it in. *)
Definition request_zero : request.t :=
  {| request.id := "";
     request.method := "";
     request.routes := [];
     request.ids := [];
     request.accept := 0;
     request.pretty := false |}.

Section Filter.

Context {library : Library}.

Definition requestPretty (pretty : string) : bool :=
  let pretty := strings_ToLower pretty in
  if isMethod pretty ["false"; "0"] then false else true.

Definition parseContent (method id contentType : string)
  (content : string + string)
  : list eskip.Route * list string * option anyError :=
  match content with
  | inr err => ([], [], Some (foreign err))
  | inl s =>
      let '(r, err) := eskip_Parse s in
      match err with
      | None => (r, [], None)
      | Some text =>
          if (contentType =? "application/eskip")%string
             || negb (method =? "DELETE")%string
          then (r, [], Some (own (errBadRequest text)))
          else
            let s := strings.Remove s " "%char in
            ([], strings.Split s ","%char, None)
      end
  end.

Definition preprocessRequest (hreq : http.Request)
  : request.t * option anyError :=
  if negb (validMethod (http.Method hreq))
  then (request_zero, Some (own errMethodNotSupported))
  else
    let req :=
      {| request.id := http.RouteID hreq;
         request.method := http.Method hreq;
         request.routes := [];
         request.ids := [];
         request.accept := acceptedMime (http.Method hreq) (http.Accept hreq);
         request.pretty := requestPretty (http.pretty hreq) |} in
    if canUseContent (request.method req) (request.id req) then
      match getContentType (request.method req) (request.id req)
              (http.ContentType hreq) with
      | (_, Some err) => (req, Some (own err))
      | (contentType, None) =>
          match parseContent (request.method req) (request.id req)
                  contentType (http.Body hreq) with
          | (_, _, Some err) => (req, Some err)
          | (r, i, None) =>
              if (request.id req =? "")%string then
                if existsb (fun ri => (eskip.Id ri =? "")%string) r
                then (req, Some (own (badRequestString "route without id")))
                else
                  ({| request.id := request.id req;
                      request.method := request.method req;
                      request.routes := r;
                      request.ids := i;
                      request.accept := request.accept req;
                      request.pretty := request.pretty req |}, None)
              else
                if (1 <? List.length r)%nat
                then (req,
                      Some (own (badRequestString "no multiple routes allowed")))
                else
                  ({| request.id := request.id req;
                      request.method := request.method req;
                      request.routes := r;
                      request.ids := i;
                      request.accept := request.accept req;
                      request.pretty := request.pretty req |}, None)
          end
      end
    else (req, None).

Definition serveError (err : anyError) : list call :=
  match err with
  | own (errBadRequest text) => [WriteHeader http.StatusBadRequest; Write text]
  | own errMethodNotSupported => [WriteHeader http.StatusMethodNotAllowed]
  | own errNotFound => [WriteHeader http.StatusNotFound]
  | own errUnsupportedMediaType => [WriteHeader http.StatusUnsupportedMediaType]
  | _ => [log_Error "server error" err;
          WriteHeader http.StatusInternalServerError]
  end.

(** What a function that writes the response did: the calls it made, and
    whether it returned or panicked after them. *)
Inductive written :=
| wrote (w : list call)
| panic (w : list call).

(** [rsp.routes[0]] on a response without routes is out of range. *)
Definition writeEskip (req : request.t) (rsp : response.t) : written :=
  if (request.id req =? "")%string
  then wrote [Write (eskip_Print (request.pretty req) (response.routes rsp))]
  else
    match response.routes rsp with
    | r0 :: _ => wrote [Write (Route_Print (request.pretty req) r0)]
    | [] => panic []
    end.

Definition writeResponse (req : request.t) (rsp : response.t) : written :=
  let '(f, ct) := decideContentType (request.accept req) in
  if (f =? responseFormatJSON)%Z
  then wrote [WriteHeader http.StatusNotImplemented]
  else
    if (request.method req =? "HEAD")%string
    then wrote [Header_Set "Content-Type" ct]
    else
      match writeEskip req rsp with
      | wrote w => wrote (Header_Set "Content-Type" ct :: w)
      | panic w => panic (Header_Set "Content-Type" ct :: w)
      end.

(** How a call of [ServeHTTP] ends. *)
Inductive served :=
| replied (st : actor.t) (w : list call)    (* it returned *)
| waiting                                   (* [f.request <- req] never completes *)
| panicked (st : actor.t) (w : list call).  (* it panicked *)

Context {route_Stringer : Stringer eskip.Route}.

(** [ServeHTTP] against the actor in the state [st]: the send on
    [f.request] and the receive of the response are one pass of the loop
    on the request case. *)
Definition ServeHTTP (st : actor.t) (hreq : http.Request) : served :=
  match preprocessRequest hreq with
  | (_, Some err) => replied st (serveError err)
  | (req, None) =>
      if (request.method req =? "OPTIONS")%string
      then replied st [Header_Set "Allow" "HEAD, GET, PUT, POST, PATCH";
                       WriteHeader http.StatusOK;
                       Write APIDescription]
      else
        match iteration st (case_request req) with
        | Some (st', responded rsp) =>
            let w :=
              match response.err rsp with
              | Some err => serveError (own err)
              | None => []
              end in
            if response.withContent rsp
            then
              match writeResponse req rsp with
              | wrote w' => replied st' (w ++ w')
              | panic w' => panicked st' (w ++ w')
              end
            else replied st' w
        | _ => waiting
        end
  end.

End Filter.

(** ** Sample data for the filter

    A library in the place of the real one: lower case for ASCII letters,
    a parser that knows three documents, and printers that print ids and
    paths. *)

Module FilterSample.

Definition lower (c : ascii) : ascii :=
  let n := nat_of_ascii c in
  if (65 <=? n)%nat && (n <=? 90)%nat then ascii_of_nat (n + 32) else c.

Fixpoint ToLower (s : string) : string :=
  match s with
  | EmptyString => EmptyString
  | String c rest => String (lower c) (ToLower rest)
  end.

Definition Parse (s : string) : list eskip.Route * option string :=
  if (s =? "")%string then ([], None)
  else if (s =? "foo")%string then ([Sample.foo], None)
  else if (s =? "foo;bar")%string then ([Sample.foo; Sample.bar], None)
  else ([], Some "parse failed").

Definition library : Library :=
  {| strings_ToLower := ToLower;
     eskip_Parse := Parse;
     eskip_Print := fun _ routes =>
                      String.concat ";" (map eskip.Id routes);
     Route_Print := fun _ r => eskip.Path r |}.

Definition request (method routeid contentType : string)
  (body : string + string) : http.Request :=
  {| http.Method := method;
     http.RouteID := routeid;
     http.Accept := [];
     http.pretty := "";
     http.ContentType := contentType;
     http.Body := body |}.

End FilterSample.

(** * Properties *)

Section Properties.

Context {route_Stringer : Stringer eskip.Route}.

(** ** Route sets *)

Lemma hasId_true i r : hasId i r = true <-> eskip.Id r = i.
Proof. unfold hasId. apply String.eqb_eq. Qed.

Lemma existsb_hasId i l :
  existsb (hasId i) l = true <-> In i (routesToIDs l).
Proof.
  unfold routesToIDs. rewrite existsb_exists, in_map_iff.
  split; intros [r [H1 H2]]; exists r.
  - apply hasId_true in H2. auto.
  - split; [assumption | now apply hasId_true].
Qed.

Lemma existsb_hasId_false i l :
  existsb (hasId i) l = false <-> ~ In i (routesToIDs l).
Proof.
  rewrite <- existsb_hasId. destruct (existsb (hasId i) l); split; congruence.
Qed.

Lemma find_hasId_Some i l r :
  find (hasId i) l = Some r -> In r l /\ eskip.Id r = i.
Proof. intros H. apply find_some in H. now rewrite hasId_true in H. Qed.

Lemma find_hasId_None i l :
  find (hasId i) l = None <-> ~ In i (routesToIDs l).
Proof.
  rewrite <- existsb_hasId_false.
  induction l as [|x l IH]; simpl; [tauto|].
  destruct (hasId i x); simpl; [split; discriminate | exact IH].
Qed.

Lemma find_hasId_app i l1 l2 :
  find (hasId i) (l1 ++ l2) =
  match find (hasId i) l1 with
  | Some r => Some r
  | None => find (hasId i) l2
  end.
Proof.
  induction l1 as [|x l1 IH]; simpl; [reflexivity|].
  destruct (hasId i x); [reflexivity | exact IH].
Qed.

Lemma find_hasId_filter i (p : eskip.Route -> bool) l :
  (forall r r', eskip.Id r = eskip.Id r' -> p r = p r') ->
  find (hasId i) (filter p l) =
  match find (hasId i) l with
  | Some r => if p r then Some r else None
  | None => None
  end.
Proof.
  intros Hp. induction l as [|x l IH]; simpl; [reflexivity|].
  destruct (p x) eqn:Hpx; simpl; destruct (hasId i x) eqn:Hx;
    try rewrite Hpx; try reflexivity; try exact IH.
  rewrite IH. apply hasId_true in Hx.
  destruct (find (hasId i) l) as [r|] eqn:Hf; [|reflexivity].
  apply find_hasId_Some in Hf. destruct Hf as [_ Hr].
  rewrite (Hp r x) by congruence. now rewrite Hpx.
Qed.

(** A loop that only appends to its result collects, in order, what
    each element contributes. *)
Lemma fold_left_collect {A B} (f : list B -> A -> list B) (g : A -> list B) :
  (forall acc x, f acc x = acc ++ g x) ->
  forall l acc, fold_left f l acc = acc ++ flat_map g l.
Proof.
  intros Hf. induction l as [|x l IH]; intros acc; simpl.
  - now rewrite app_nil_r.
  - rewrite IH, Hf, <- app_assoc. reflexivity.
Qed.

Lemma flat_map_filter {A} (p : A -> bool) l :
  flat_map (fun x => if p x then [] else [x]) l = filter (fun x => negb (p x)) l.
Proof.
  induction l as [|x l IH]; simpl; [reflexivity|].
  rewrite IH. now destruct (p x).
Qed.

(** [removeRoutes a b] keeps, in order, the routes of [a] whose id no
    route of [b] has. *)
Lemma removeRoutes_filter a b :
  removeRoutes a b =
  filter (fun ai => negb (existsb (hasId (eskip.Id ai)) b)) a.
Proof.
  unfold removeRoutes.
  rewrite (fold_left_collect _
             (fun ai => if existsb (hasId (eskip.Id ai)) b then [] else [ai])).
  - simpl. apply flat_map_filter.
  - intros acc x. destruct (existsb _ b); [now rewrite app_nil_r | reflexivity].
Qed.

Lemma In_removeRoutes r a b :
  In r (removeRoutes a b) <-> In r a /\ ~ In (eskip.Id r) (routesToIDs b).
Proof.
  rewrite removeRoutes_filter, filter_In, negb_true_iff, existsb_hasId_false.
  reflexivity.
Qed.

Lemma In_ids_removeRoutes i a b :
  In i (routesToIDs (removeRoutes a b)) <->
  In i (routesToIDs a) /\ ~ In i (routesToIDs b).
Proof.
  unfold routesToIDs at 1 2. rewrite !in_map_iff. split.
  - intros [r [<- Hr]]. apply In_removeRoutes in Hr. destruct Hr as [Ha Hb].
    split; [exists r; auto | exact Hb].
  - intros [[r [<- Ha]] Hb]. exists r. split; [reflexivity|].
    apply In_removeRoutes. auto.
Qed.

Lemma find_removeRoutes i a b :
  find (hasId i) (removeRoutes a b) =
  if existsb (hasId i) b then None else find (hasId i) a.
Proof.
  rewrite removeRoutes_filter, find_hasId_filter.
  - destruct (find (hasId i) a) as [r|] eqn:Hf.
    + apply find_hasId_Some in Hf. destruct Hf as [_ ->].
      now destruct (existsb (hasId i) b).
    + now destruct (existsb (hasId i) b).
  - intros r r' E. now rewrite E.
Qed.

Lemma NoDup_ids_filter (p : eskip.Route -> bool) l :
  NoDup (routesToIDs l) -> NoDup (routesToIDs (filter p l)).
Proof.
  unfold routesToIDs. induction l as [|x l IH]; simpl; intros H; [constructor|].
  inversion H as [|? ? Hx Hl]; subst. destruct (p x); simpl; auto.
  constructor; auto. rewrite in_map_iff in *. intros [r [E Hr]].
  apply Hx. exists r. split; [exact E|]. now apply filter_In in Hr.
Qed.

Lemma NoDup_ids_removeRoutes a b :
  NoDup (routesToIDs a) -> NoDup (routesToIDs (removeRoutes a b)).
Proof. rewrite removeRoutes_filter. apply NoDup_ids_filter. Qed.

Lemma routesToIDs_app a b :
  routesToIDs (a ++ b) = routesToIDs a ++ routesToIDs b.
Proof. apply map_app. Qed.

Lemma unique_loop_find i r : forall u,
  find (hasId i) (fold_left unique_step r u) =
  match find (hasId i) u with
  | Some x => Some x
  | None => find (hasId i) r
  end.
Proof.
  induction r as [|ri r IH]; intros u; simpl.
  - now destruct (find (hasId i) u).
  - rewrite IH. unfold unique_step.
    destruct (existsb (hasId (eskip.Id ri)) u) eqn:Hex.
    + destruct (find (hasId i) u) eqn:Hf; [reflexivity|].
      destruct (hasId i ri) eqn:Hri; [|reflexivity].
      apply hasId_true in Hri. subst i.
      apply find_hasId_None in Hf. apply existsb_hasId in Hex. contradiction.
    + rewrite find_hasId_app. destruct (find (hasId i) u); [reflexivity|].
      simpl. now destruct (hasId i ri).
Qed.

Lemma unique_loop_NoDup r : forall u,
  NoDup (routesToIDs u) -> NoDup (routesToIDs (fold_left unique_step r u)).
Proof.
  induction r as [|ri r IH]; intros u Hu; simpl; [exact Hu|].
  apply IH. unfold unique_step.
  destruct (existsb (hasId (eskip.Id ri)) u) eqn:Hex; [exact Hu|].
  rewrite routesToIDs_app. simpl. apply NoDup_app; [exact Hu | | ].
  - constructor; [intros [] | constructor].
  - intros x Hx [<-|[]]. apply existsb_hasId_false in Hex. contradiction.
Qed.

Lemma unique_loop_In x r : forall u,
  In x (fold_left unique_step r u) -> In x u \/ In x r.
Proof.
  induction r as [|ri r IH]; intros u H; simpl in *; [auto|].
  apply IH in H. destruct H as [H|H]; [|auto].
  unfold unique_step in H. destruct (existsb _ u); [auto|].
  apply in_app_or in H. destruct H as [H|[<-|[]]]; auto.
Qed.

(** [uniqueRoutes r] has every id of [r] once, with the first route of
    [r] that carries it. *)
Lemma find_uniqueRoutes i r :
  find (hasId i) (uniqueRoutes r) = find (hasId i) r.
Proof. apply (unique_loop_find i r []). Qed.

Lemma NoDup_uniqueRoutes r : NoDup (routesToIDs (uniqueRoutes r)).
Proof. apply (unique_loop_NoDup r []). constructor. Qed.

Lemma In_uniqueRoutes x r : In x (uniqueRoutes r) -> In x r.
Proof. intros H. apply unique_loop_In in H. destruct H as [[]|H]. exact H. Qed.

Lemma In_ids_uniqueRoutes i r :
  In i (routesToIDs (uniqueRoutes r)) <-> In i (routesToIDs r).
Proof.
  rewrite <- !existsb_hasId.
  assert (E : forall l, existsb (hasId i) l = true <-> find (hasId i) l <> None).
  { intros l. rewrite find_hasId_None, existsb_hasId.
    split; [tauto|]. intros H.
    destruct (in_dec string_dec i (routesToIDs l)); tauto. }
  rewrite !E, find_uniqueRoutes. reflexivity.
Qed.

(** [idsToRoutes ids from]: for each id, in order, the first route of
    [from] that has it, if any. *)
Lemma idsToRoutes_flat_map ids from :
  idsToRoutes ids from =
  flat_map (fun id => match find (hasId id) from with
                      | Some r => [r]
                      | None => []
                      end) ids.
Proof.
  unfold idsToRoutes. rewrite fold_left_collect with (g := fun id =>
    match find (hasId id) from with Some r => [r] | None => [] end).
  - reflexivity.
  - intros acc x. destruct (find (hasId x) from); [reflexivity|].
    now rewrite app_nil_r.
Qed.

Lemma idsToRoutes_one i from :
  idsToRoutes [i] from =
  match find (hasId i) from with Some r => [r] | None => [] end.
Proof. rewrite idsToRoutes_flat_map. simpl. apply app_nil_r. Qed.

Lemma In_idsToRoutes r ids from :
  In r (idsToRoutes ids from) <->
  exists i, In i ids /\ find (hasId i) from = Some r.
Proof.
  rewrite idsToRoutes_flat_map, in_flat_map. split; intros [i [Hi H]]; exists i.
  - destruct (find (hasId i) from); [|destruct H].
    destruct H as [<-|[]]. auto.
  - rewrite H. simpl. auto.
Qed.

Lemma In_ids_idsToRoutes i ids from :
  In i (routesToIDs (idsToRoutes ids from)) <->
  In i ids /\ In i (routesToIDs from).
Proof.
  unfold routesToIDs at 1. rewrite in_map_iff. split.
  - intros [r [<- Hr]]. apply In_idsToRoutes in Hr. destruct Hr as [j [Hj Hf]].
    apply find_hasId_Some in Hf. destruct Hf as [Hin <-].
    split; [exact Hj | now apply in_map].
  - intros [Hi Hf]. destruct (find (hasId i) from) as [r|] eqn:E.
    + exists r. split; [now apply find_hasId_Some in E|].
      apply In_idsToRoutes. eauto.
    + apply find_hasId_None in E. contradiction.
Qed.

(** [changedRoutes prev next] only returns routes of [next], and only for
    ids that [prev] has too. *)
Lemma changedRoutes_flat_map prev next :
  changedRoutes prev next =
  flat_map (fun pi => match find (hasId (eskip.Id pi)) next with
                      | Some ni =>
                          if negb (String_ ni =? String_ pi)%string
                          then [ni] else []
                      | None => []
                      end) prev.
Proof.
  unfold changedRoutes. rewrite fold_left_collect with (g := fun pi =>
    match find (hasId (eskip.Id pi)) next with
    | Some ni => if negb (String_ ni =? String_ pi)%string then [ni] else []
    | None => []
    end).
  - reflexivity.
  - intros acc x. destruct (find _ next) as [ni|]; [|now rewrite app_nil_r].
    destruct (negb _); [reflexivity | now rewrite app_nil_r].
Qed.

Lemma In_changedRoutes r prev next :
  In r (changedRoutes prev next) ->
  In r next /\ In (eskip.Id r) (routesToIDs prev).
Proof.
  rewrite changedRoutes_flat_map, in_flat_map. intros [pi [Hpi H]].
  destruct (find (hasId (eskip.Id pi)) next) as [ni|] eqn:E; [|destruct H].
  destruct (negb _); [|destruct H]. destruct H as [<-|[]].
  apply find_hasId_Some in E. destruct E as [Hin E].
  split; [exact Hin|]. rewrite E. now apply in_map.
Qed.

Lemma In_ids_map i (l : list eskip.Route) :
  In i (routesToIDs l) <-> exists r, In r l /\ eskip.Id r = i.
Proof.
  unfold routesToIDs. rewrite in_map_iff.
  split; intros [r [H1 H2]]; exists r; auto.
Qed.

(** What [upsertRoutes] leaves in the set and what it reports. *)
Lemma upserted_ids to from i :
  In i (routesToIDs (snd (upsertRoutes to from))) -> In i (routesToIDs from).
Proof.
  unfold upsertRoutes. simpl. rewrite routesToIDs_app, in_app_iff.
  intros [H|H].
  - now apply In_ids_removeRoutes in H.
  - apply In_ids_map in H. destruct H as [r [Hr <-]].
    apply In_changedRoutes in Hr. apply in_map. tauto.
Qed.

Lemma upsertRoutes_next_ids to from i :
  In i (routesToIDs (fst (upsertRoutes to from))) ->
  In i (routesToIDs to) \/ In i (routesToIDs from).
Proof.
  unfold upsertRoutes. simpl. rewrite routesToIDs_app, in_app_iff.
  intros [H|H].
  - apply In_ids_removeRoutes in H. tauto.
  - right. now apply (upserted_ids to from).
Qed.

Lemma upsertRoutes_keeps to from r :
  In r to -> ~ In (eskip.Id r) (routesToIDs from) ->
  In r (fst (upsertRoutes to from)).
Proof.
  intros Hr Hn. unfold upsertRoutes. simpl. apply in_or_app. left.
  apply In_removeRoutes. split; [exact Hr|].
  intros H. apply Hn. now apply (upserted_ids to from).
Qed.

Lemma upsertRoutes_keeps_ids to from i :
  In i (routesToIDs to) -> In i (routesToIDs (fst (upsertRoutes to from))).
Proof.
  intros Hi. unfold upsertRoutes. simpl.
  set (upserted := removeRoutes from to ++ changedRoutes to from).
  rewrite routesToIDs_app, in_app_iff.
  destruct (in_dec string_dec i (routesToIDs upserted)) as [H|H]; [auto|].
  left. apply In_ids_removeRoutes. auto.
Qed.

(** ** The handlers *)

Lemma handle_root s req :
  request.id req = "" -> handle s req = handleRoot s req.
Proof. intros E. unfold handle. now rewrite E. Qed.

Lemma handle_individual s req :
  request.id req <> "" -> handle s req = handleIndividual s req.
Proof.
  intros E. unfold handle.
  destruct (String.eqb_spec (request.id req) ""); [contradiction | reflexivity].
Qed.

Lemma handleRoot_replace s req :
  request.method req = "PUT" \/ request.method req = "POST" ->
  handleRoot s req =
  (setRoutes s (removeRoutes (uniqueRoutes (request.routes req))
                  (Spec.defaults s)),
   response.zero, snd (putRoot s req)).
Proof. intros [E|E]; unfold handleRoot; rewrite E; reflexivity. Qed.

Lemma handleRoot_upsert s req :
  request.method req = "PATCH" ->
  handleRoot s req =
  (fst (patchInRoot s req), response.zero, snd (patchInRoot s req)).
Proof. intros E. unfold handleRoot. rewrite E. reflexivity. Qed.

Lemma handleRoot_delete s req :
  request.method req = "DELETE" ->
  handleRoot s req =
  (fst (deleteFromRoot s req), response.zero, snd (deleteFromRoot s req)).
Proof. intros E. unfold handleRoot. rewrite E. reflexivity. Qed.

(** C3.  A PUT or POST on the root replaces the set: the routes of the
    store become the routes of the request, first route of every id,
    without the ids of the defaults, whatever the store held before.
    Stated for the list the code computes, for the route each id then
    resolves to, and for the absence of duplicates. *)
Theorem replace_root_sets_unique_without_defaults s req :
  request.id req = "" ->
  request.method req = "PUT" \/ request.method req = "POST" ->
  let S := request.routes req in
  let s' := fst (fst (handle s req)) in
  Spec.routes s' = removeRoutes (uniqueRoutes S) (Spec.defaults s)
  /\ (forall i,
        find (hasId i) (Spec.routes s') =
        if existsb (hasId i) (Spec.defaults s) then None
        else find (hasId i) S)
  /\ NoDup (routesToIDs (Spec.routes s'))
  /\ (forall r, In r (Spec.routes s') -> In r S)
  /\ Spec.defaults s' = Spec.defaults s
  /\ response.err (snd (fst (handle s req))) = None.
Proof.
  intros Hid Hm S s'. subst s'.
  rewrite (handle_root _ _ Hid), (handleRoot_replace _ _ Hm). simpl.
  repeat split.
  - intros i. now rewrite find_removeRoutes, find_uniqueRoutes.
  - apply NoDup_ids_removeRoutes, NoDup_uniqueRoutes.
  - intros r Hr. apply In_removeRoutes in Hr. now apply In_uniqueRoutes.
Qed.

Lemma In_ids_filter_by_id i (p : string -> bool) (l : list eskip.Route) :
  In i (routesToIDs (filter (fun r => p (eskip.Id r)) l)) <->
  In i (routesToIDs l) /\ p i = true.
Proof.
  rewrite !In_ids_map. split.
  - intros [r [Hr <-]]. apply filter_In in Hr. destruct Hr as [Hr Hp].
    split; [exists r; auto | exact Hp].
  - intros [[r [Hr <-]] Hp]. exists r. split; [|reflexivity].
    apply filter_In. auto.
Qed.

(** The double subtraction of [deleteFromRoot]: what is left of the
    candidates are those whose id the store has. *)
Lemma remove_the_absent cand W :
  removeRoutes cand (removeRoutes cand W) =
  filter (fun c => existsb (hasId (eskip.Id c)) W) cand.
Proof.
  rewrite removeRoutes_filter. apply filter_ext_in. intros c Hc.
  destruct (existsb (hasId (eskip.Id c)) W) eqn:E; simpl.
  - apply negb_true_iff, existsb_hasId_false. intros H.
    apply In_ids_removeRoutes in H. apply existsb_hasId in E. tauto.
  - apply negb_false_iff, existsb_hasId, In_ids_removeRoutes.
    apply existsb_hasId_false in E. split; [now apply in_map | exact E].
Qed.

Lemma remove_the_present W cand :
  removeRoutes W (filter (fun c => existsb (hasId (eskip.Id c)) W) cand) =
  removeRoutes W cand.
Proof.
  rewrite !removeRoutes_filter. apply filter_ext_in. intros r Hr. f_equal.
  apply eq_true_iff_eq. rewrite !existsb_hasId.
  rewrite (In_ids_filter_by_id (eskip.Id r) (fun i => existsb (hasId i) W)).
  rewrite existsb_hasId. split; [tauto|]. intros H. split; [exact H|].
  now apply in_map.
Qed.

(** C5.  A DELETE on the root removes from the store the routes whose id
    is among the candidates, where the candidates are the routes the ids
    of the request resolve to in the store, followed by the routes of the
    request, first route of every id, without the defaults.  Candidates
    that the store does not have change nothing and give no error, and
    the deleted ids of the update are the ids the store had before and
    has no more. *)
Theorem delete_from_root_removes_present_candidates s req :
  request.id req = "" ->
  request.method req = "DELETE" ->
  let W := Spec.routes s in
  let candidates :=
    removeRoutes
      (uniqueRoutes (idsToRoutes (request.ids req) W ++ request.routes req))
      (Spec.defaults s) in
  let s' := fst (fst (handle s req)) in
  let rsp := snd (fst (handle s req)) in
  let update := snd (handle s req) in
  Spec.routes s' =
    filter (fun r => negb (existsb (hasId (eskip.Id r)) candidates)) W
  /\ updateMessage.deletedIDs update =
       routesToIDs (filter (fun c => existsb (hasId (eskip.Id c)) W) candidates)
  /\ (forall i,
        In i (updateMessage.deletedIDs update) <->
        (In i (request.ids req) \/ In i (routesToIDs (request.routes req)))
        /\ ~ In i (routesToIDs (Spec.defaults s))
        /\ In i (routesToIDs W))
  /\ (forall i,
        In i (updateMessage.deletedIDs update) <->
        In i (routesToIDs W) /\ ~ In i (routesToIDs (Spec.routes s')))
  /\ NoDup (updateMessage.deletedIDs update)
  /\ updateMessage.routes update = []
  /\ response.err rsp = None
  /\ Spec.defaults s' = Spec.defaults s.
Proof.
  intros Hid Hm W candidates s' rsp update. subst s' rsp update.
  rewrite (handle_root _ _ Hid), (handleRoot_delete _ _ Hm).
  unfold deleteFromRoot. simpl. fold W. fold candidates.
  rewrite remove_the_absent, remove_the_present.
  assert (Hd : forall i,
             In i (routesToIDs
                     (filter (fun c => existsb (hasId (eskip.Id c)) W)
                        candidates)) <->
             In i (routesToIDs candidates) /\ In i (routesToIDs W)).
  { intros i.
    rewrite (In_ids_filter_by_id i (fun j => existsb (hasId j) W)).
    now rewrite existsb_hasId. }
  assert (Hc : forall i,
             In i (routesToIDs candidates) <->
             (In i (request.ids req) /\ In i (routesToIDs W)
              \/ In i (routesToIDs (request.routes req)))
             /\ ~ In i (routesToIDs (Spec.defaults s))).
  { intros i. unfold candidates.
    rewrite In_ids_removeRoutes, In_ids_uniqueRoutes, routesToIDs_app,
      in_app_iff, In_ids_idsToRoutes. reflexivity. }
  repeat split.
  - now rewrite removeRoutes_filter.
  - apply Hd in H. destruct H as [H _]. apply Hc in H. tauto.
  - apply Hd in H. destruct H as [H _]. apply Hc in H. tauto.
  - apply Hd in H. tauto.
  - intros [H1 [H2 H3]]. apply Hd. split; [|exact H3]. apply Hc. tauto.
  - apply Hd in H. tauto.
  - apply Hd in H. rewrite In_ids_removeRoutes. tauto.
  - intros [H1 H2]. apply Hd. split; [|exact H1].
    rewrite In_ids_removeRoutes in H2.
    destruct (in_dec string_dec i (routesToIDs candidates)); tauto.
  - apply NoDup_ids_filter. unfold candidates.
    apply NoDup_ids_removeRoutes, NoDup_uniqueRoutes.
Qed.

(** C6.  A PATCH on the root deletes nothing: a route of the store whose
    id no route of the request has is still in the store, as it was;
    every id the store had it still has; and the update names no deleted
    id. *)
Theorem upsert_root_never_deletes s req :
  request.id req = "" ->
  request.method req = "PATCH" ->
  let W := Spec.routes s in
  let s' := fst (fst (handle s req)) in
  let update := snd (handle s req) in
  (forall r,
     In r W -> ~ In (eskip.Id r) (routesToIDs (request.routes req)) ->
     In r (Spec.routes s'))
  /\ (forall i, In i (routesToIDs W) -> In i (routesToIDs (Spec.routes s')))
  /\ updateMessage.deletedIDs update = []
  /\ response.err (snd (fst (handle s req))) = None
  /\ Spec.defaults s' = Spec.defaults s.
Proof.
  intros Hid Hm W s' update. subst s' update.
  rewrite (handle_root _ _ Hid), (handleRoot_upsert _ _ Hm).
  unfold patchInRoot.
  set (from := removeRoutes (uniqueRoutes (request.routes req)) (Spec.defaults s)).
  destruct (upsertRoutes (Spec.routes s) from) as [next upserted] eqn:E.
  simpl. fold W in E.
  assert (En : next = fst (upsertRoutes W from)) by now rewrite E.
  repeat split.
  - intros r Hr Hn. rewrite En. apply upsertRoutes_keeps; [exact Hr|].
    intros H. apply Hn. unfold from in H.
    apply In_ids_removeRoutes in H. destruct H as [H _].
    rewrite In_ids_uniqueRoutes in H. exact H.
  - intros i Hi. rewrite En. now apply upsertRoutes_keeps_ids.
Qed.

(** Takes the handlers apart, one branch of the code per goal. *)
Ltac branches :=
  repeat match goal with
    | |- context [if ?b then _ else _] => destruct b eqn:?
    | |- context [upsertRoutes ?a ?b] => destruct (upsertRoutes a b) eqn:?
    | |- context [let '(_, _) := ?p in _] => destruct p eqn:?
    | |- context [match ?p with (_, _) => _ end] => destruct p eqn:?
    end.

Lemma handle_defaults s req :
  Spec.defaults (fst (fst (handle s req))) = Spec.defaults s.
Proof.
  unfold handle, handleRoot, handleIndividual, putRoot, patchInRoot,
    deleteFromRoot, put, patch, del, replaceRoutes.
  branches; reflexivity.
Qed.

(** A request that is answered with an error leaves the store as it was
    and gives the data client nothing; the error is one of two. *)
Lemma handle_err s req :
  response.err (snd (fst (handle s req))) <> None ->
  fst (fst (handle s req)) = s
  /\ snd (handle s req) = updateMessage.zero
  /\ (response.err (snd (fst (handle s req))) = Some errNotFound
      \/ response.err (snd (fst (handle s req))) =
           Some (errBadRequest "exactly one route expected")).
Proof.
  unfold handle, handleRoot, handleIndividual, putRoot, patchInRoot,
    deleteFromRoot, get, put, patch, del, replaceRoutes.
  branches; simpl; intros H; try congruence; auto.
Qed.

(** A request that changes the routes is answered without an error. *)
Lemma handle_update_no_err s req :
  hasData (snd (handle s req)) = true ->
  response.err (snd (fst (handle s req))) = None.
Proof.
  intros H. destruct (response.err (snd (fst (handle s req)))) eqn:E;
    [|reflexivity].
  destruct (handle_err s req) as [_ [Hz _]]; [congruence|].
  rewrite Hz in H. discriminate.
Qed.

Lemma handle_update_err s req :
  updateMessage.err (snd (handle s req)) = None.
Proof.
  unfold handle, handleRoot, handleIndividual, putRoot, patchInRoot,
    deleteFromRoot, put, patch, del, replaceRoutes.
  branches; reflexivity.
Qed.

(** The ids an update reports as deleted were ids of the store. *)
Lemma handle_deletedIDs s req i :
  In i (updateMessage.deletedIDs (snd (handle s req))) ->
  In i (routesToIDs (Spec.routes s)).
Proof.
  unfold handle, handleRoot, handleIndividual, putRoot, patchInRoot,
    deleteFromRoot, put, patch, del, replaceRoutes.
  branches; simpl; try tauto.
  - intros H. apply In_ids_removeRoutes in H. tauto.
  - rewrite remove_the_absent. intros H.
    apply (In_ids_filter_by_id i
             (fun j => existsb (hasId j) (Spec.routes s))) in H.
    destruct H as [_ H]. now apply existsb_hasId.
  - intros H. apply In_ids_idsToRoutes in H. tauto.
Qed.

Lemma length_zero {A} (l : list A) : (List.length l =? 0)%nat = true <-> l = [].
Proof.
  destruct l; simpl; split; intros H; try reflexivity; discriminate.
Qed.

Lemma removeRoutes_one r b :
  removeRoutes [r] b = if existsb (hasId (eskip.Id r)) b then [] else [r].
Proof. unfold removeRoutes. simpl. now destruct (existsb _ b). Qed.

Lemma setFirstId_one i routes :
  (List.length routes =? 1)%nat = true ->
  exists r, setFirstId i routes = [r] /\ eskip.Id r = i.
Proof.
  destruct routes as [|r [|r' rest]]; simpl; intros H; try discriminate.
  eexists. split; reflexivity.
Qed.

(** No handler brings the id of a default into the store. *)
Lemma handle_protects_defaults s req :
  protects_defaults s -> protects_defaults (fst (fst (handle s req))).
Proof.
  intros Hs.
  unfold handle, handleRoot, handleIndividual, putRoot, patchInRoot,
    deleteFromRoot, put, patch, del, replaceRoutes.
  branches; simpl; try exact Hs; intros i Hi; simpl in *.
  - (* putRoot *)
    apply In_ids_removeRoutes in Hi. tauto.
  - (* patchInRoot *)
    match goal with
    | E : upsertRoutes ?a ?b = (?n, _) |- _ =>
        assert (En : n = fst (upsertRoutes a b)) by now rewrite E
    end.
    rewrite En in Hi. apply upsertRoutes_next_ids in Hi.
    destruct Hi as [Hi|Hi]; [now apply Hs|].
    apply In_ids_removeRoutes in Hi. tauto.
  - (* deleteFromRoot *)
    apply In_ids_removeRoutes in Hi. apply Hs. tauto.
  - (* put *)
    match goal with
    | E : upsertRoutes ?a ?b = (?n, _) |- _ =>
        assert (En : n = fst (upsertRoutes a b)) by now rewrite E
    end.
    rewrite En in Hi. apply upsertRoutes_next_ids in Hi.
    destruct Hi as [Hi|Hi]; [now apply Hs|].
    apply In_ids_removeRoutes in Hi. tauto.
  - (* patch *)
    match goal with
    | E : upsertRoutes ?a ?b = (?n, _) |- _ =>
        assert (En : n = fst (upsertRoutes a b)) by now rewrite E
    end.
    rewrite En in Hi. apply upsertRoutes_next_ids in Hi.
    destruct Hi as [Hi|Hi]; [now apply Hs|].
    match goal with
    | H : negb (List.length (request.routes req) =? 1)%nat = false |- _ =>
        apply negb_false_iff in H;
        destruct (setFirstId_one (request.id req) _ H) as [r [Er Hr]]
    end.
    rewrite Er in Hi. simpl in Hi. destruct Hi as [Hi|[]].
    rewrite Hr in Hi. subst i.
    match goal with
    | H : (List.length (removeRoutes _ _) =? 0)%nat = false |- _ =>
        rename H into Hne
    end.
    rewrite idsToRoutes_one in Hne.
    destruct (find (hasId (request.id req)) _) as [x|] eqn:Ef;
      [|discriminate].
    apply find_hasId_Some in Ef. destruct Ef as [_ Ex].
    rewrite removeRoutes_one, Ex in Hne.
    destruct (existsb (hasId (request.id req)) (Spec.defaults s)) eqn:Eex;
      [discriminate|].
    now apply existsb_hasId_false.
  - (* del *)
    apply In_ids_removeRoutes in Hi. apply Hs. tauto.
Qed.

(** ** Individual requests on the id of a default *)

Lemma find_in_defaults s d :
  In d (routesToIDs (Spec.defaults s)) ->
  exists r,
    find (hasId d) (Spec.defaults s ++ Spec.routes s) = Some r
    /\ find (hasId d) (Spec.defaults s) = Some r
    /\ In r (Spec.defaults s) /\ eskip.Id r = d.
Proof.
  intros Hd. rewrite find_hasId_app.
  destruct (find (hasId d) (Spec.defaults s)) as [r|] eqn:E.
  - exists r. apply find_hasId_Some in E. tauto.
  - apply find_hasId_None in E. contradiction.
Qed.

Lemma get_default s req :
  In (request.id req) (routesToIDs (Spec.defaults s)) ->
  exists r,
    In r (Spec.defaults s) /\ eskip.Id r = request.id req
    /\ find (hasId (request.id req)) (Spec.defaults s) = Some r
    /\ get s req = {| response.withContent := true;
                      response.routes := [r];
                      response.err := None |}.
Proof.
  intros Hd. destruct (find_in_defaults s _ Hd) as [r [E [E' [Hr Hi]]]].
  exists r. repeat split; try assumption.
  unfold get. rewrite idsToRoutes_one, E. reflexivity.
Qed.

Lemma put_default s req :
  In (request.id req) (routesToIDs (Spec.defaults s)) ->
  fst (fst (put s req)) = s /\ snd (put s req) = updateMessage.zero.
Proof.
  intros Hd. unfold put.
  destruct (negb (List.length (request.routes req) =? 1)%nat) eqn:El;
    [now split|].
  apply negb_false_iff in El.
  destruct (setFirstId_one (request.id req) _ El) as [r [-> Hr]].
  rewrite removeRoutes_one, Hr.
  apply existsb_hasId in Hd. rewrite Hd. now split.
Qed.

Lemma patch_default s req :
  In (request.id req) (routesToIDs (Spec.defaults s)) ->
  fst (fst (patch s req)) = s /\ snd (patch s req) = updateMessage.zero.
Proof.
  intros Hd. unfold patch.
  destruct (find_in_defaults s _ Hd) as [r [E [_ [_ Hi]]]].
  rewrite idsToRoutes_one, E. simpl.
  destruct (negb (List.length (request.routes req) =? 1)%nat); [now split|].
  rewrite removeRoutes_one, Hi.
  apply existsb_hasId in Hd. rewrite Hd. now split.
Qed.

(** [del] looks the id up in the routes of the store and nowhere else. *)
Lemma del_not_found s req :
  ~ In (request.id req) (routesToIDs (Spec.routes s)) ->
  del s req = (s, withErr errNotFound, updateMessage.zero).
Proof.
  intros Hn. unfold del. rewrite idsToRoutes_one.
  apply find_hasId_None in Hn. rewrite Hn. reflexivity.
Qed.

Lemma del_found s req :
  In (request.id req) (routesToIDs (Spec.routes s)) ->
  response.err (snd (fst (del s req))) = None.
Proof.
  intros Hi. unfold del. rewrite idsToRoutes_one.
  destruct (find (hasId (request.id req)) (Spec.routes s)) eqn:E.
  - reflexivity.
  - apply find_hasId_None in E. contradiction.
Qed.

Lemma handleIndividual_default s req :
  protects_defaults s ->
  In (request.id req) (routesToIDs (Spec.defaults s)) ->
  fst (fst (handleIndividual s req)) = s
  /\ snd (handleIndividual s req) = updateMessage.zero.
Proof.
  intros Hs Hd. unfold handleIndividual.
  destruct (isMethod _ ["HEAD"; "GET"]); [now split|].
  destruct (isMethod _ ["PUT"; "POST"]); [now apply put_default|].
  destruct (isMethod _ ["PATCH"]); [now apply patch_default|].
  destruct (isMethod _ ["DELETE"]); [|now split].
  rewrite del_not_found; [now split|].
  intros H. now apply (Hs _ H).
Qed.

(** ** The loop *)

Lemma iteration_request st req st' e :
  iteration st (case_request req) = Some (st', e) ->
  let update := snd (handle (actor.self st) req) in
  actor.returned st = false
  /\ e = responded (snd (fst (handle (actor.self st) req)))
  /\ actor.self st' = fst (fst (handle (actor.self st) req))
  /\ actor.stop_closed st' = actor.stop_closed st
  /\ actor.returned st' = false
  /\ (actor.updateRelay st', actor.updateToSend st') =
     if hasData update then
       match actor.updateRelay st with
       | relay_nil => (relay_update, update)
       | relay_update => (relay_update, missed)
       end
     else (actor.updateRelay st, actor.updateToSend st).
Proof.
  unfold iteration. destruct (actor.returned st); [discriminate|].
  destruct (handle (actor.self st) req) as [[s' rsp] update]. simpl.
  destruct (hasData update); destruct (actor.updateRelay st);
    intros H; inversion H; subst; simpl; repeat split.
Qed.


Lemma iteration_defaults st c st' e :
  iteration st c = Some (st', e) ->
  Spec.defaults (actor.self st') = Spec.defaults (actor.self st).
Proof.
  destruct c.
  - unfold iteration. destruct (actor.returned st); [discriminate|].
    intros H. now inversion H.
  - unfold iteration. destruct (actor.returned st); [discriminate|].
    destruct (actor.updateRelay st); [discriminate|]. intros H. now inversion H.
  - intros H. apply iteration_request in H. destruct H as [_ [_ [-> _]]].
    apply handle_defaults.
  - unfold iteration. destruct (actor.returned st); [discriminate|].
    destruct (actor.stop_closed st); [|discriminate]. intros H. now inversion H.
Qed.

Lemma iteration_protects_defaults st c st' e :
  iteration st c = Some (st', e) ->
  actor_protects_defaults st -> actor_protects_defaults st'.
Proof.
  intros H [Hs Hu]. destruct c.
  - unfold iteration in H. destruct (actor.returned st); [discriminate|].
    inversion H; subst. now split.
  - unfold iteration in H. destruct (actor.returned st); [discriminate|].
    destruct (actor.updateRelay st); [discriminate|].
    inversion H; subst. now split.
  - pose proof (iteration_defaults _ _ _ _ H) as Hd.
    apply iteration_request in H.
    destruct H as [_ [_ [Hself [_ [_ Hslot]]]]].
    split.
    + rewrite Hself. now apply handle_protects_defaults.
    + rewrite Hd. intros i Hi.
      destruct (hasData _); [destruct (actor.updateRelay st)|];
        inversion Hslot as [[Hr Ht]]; rewrite Ht in Hi.
      * apply handle_deletedIDs in Hi. now apply Hs.
      * destruct Hi.
      * now apply Hu.
  - unfold iteration in H. destruct (actor.returned st); [discriminate|].
    destruct (actor.stop_closed st); [|discriminate].
    inversion H; subst. now split.
Qed.

(** In every state the actor reaches, the routes of the store and the
    pending update stay clear of the ids of the defaults. *)
Lemma reachable_protects_defaults st :
  reachable st -> actor_protects_defaults st.
Proof.
  induction 1 as [o | st c st' e _ IH Hit | st st' _ IH Hc].
  - split; simpl; intros i [].
  - now apply (iteration_protects_defaults st c st' e).
  - unfold Close in Hc. destruct (actor.stop_closed st); [discriminate|].
    inversion Hc; subst. exact IH.
Qed.

Lemma actor_eq st st' :
  actor.self st' = actor.self st ->
  (actor.updateRelay st', actor.updateToSend st') =
    (actor.updateRelay st, actor.updateToSend st) ->
  actor.stop_closed st' = actor.stop_closed st ->
  actor.returned st' = actor.returned st ->
  st' = st.
Proof.
  destruct st, st'. simpl. intros -> H -> ->. inversion H. reflexivity.
Qed.

Lemma LoadUpdate_pending st :
  actor.returned st = false ->
  actor.updateRelay st = relay_update ->
  exists st',
    LoadUpdate st =
      Some (st',
            (updateMessage.routes (actor.updateToSend st),
             updateMessage.deletedIDs (actor.updateToSend st),
             updateMessage.err (actor.updateToSend st)))
    /\ actor.updateRelay st' = relay_nil
    /\ actor.self st' = actor.self st
    /\ actor.returned st' = false.
Proof.
  intros Hr Hu. unfold LoadUpdate, iteration. rewrite Hr, Hu.
  eexists. repeat split.
Qed.

Lemma LoadUpdate_Some st st' ans :
  LoadUpdate st = Some (st', ans) ->
  actor.returned st = false
  /\ actor.updateRelay st = relay_update
  /\ ans = (updateMessage.routes (actor.updateToSend st),
            updateMessage.deletedIDs (actor.updateToSend st),
            updateMessage.err (actor.updateToSend st))
  /\ actor.updateRelay st' = relay_nil
  /\ actor.self st' = actor.self st.
Proof.
  unfold LoadUpdate, iteration. destruct (actor.returned st); [discriminate|].
  destruct (actor.updateRelay st); [discriminate|].
  intros H. inversion H; subst. repeat split.
Qed.

(** Once the pending update is the missed marker, only its delivery
    takes it away. *)
Lemma missed_stays st c st' e :
  iteration st c = Some (st', e) ->
  c <> case_updateRelay ->
  actor.updateRelay st = relay_update ->
  actor.updateToSend st = missed ->
  actor.updateRelay st' = relay_update /\ actor.updateToSend st' = missed.
Proof.
  intros H Hc Hu Hm. destruct c; [| contradiction | |].
  - unfold iteration in H. destruct (actor.returned st); [discriminate|].
    inversion H; subst. auto.
  - apply iteration_request in H. destruct H as [_ [_ [_ [_ [_ H]]]]].
    rewrite Hu, Hm in H. destruct (hasData _); inversion H; auto.
  - unfold iteration in H. destruct (actor.returned st); [discriminate|].
    destruct (actor.stop_closed st); [|discriminate].
    inversion H; subst. auto.
Qed.

Lemma missed_stays_run schedule : forall st,
  ~ In case_updateRelay schedule ->
  actor.updateRelay st = relay_update ->
  actor.updateToSend st = missed ->
  actor.updateRelay (fst (run st schedule)) = relay_update
  /\ actor.updateToSend (fst (run st schedule)) = missed.
Proof.
  induction schedule as [|c rest IH]; intros st Hn Hu Hm; simpl; [auto|].
  assert (Hc : c <> case_updateRelay) by (intros ->; apply Hn; now left).
  assert (Hrest : ~ In case_updateRelay rest) by (intros H; apply Hn; now right).
  destruct (iteration st c) as [[st' e]|] eqn:E.
  - destruct (missed_stays _ _ _ _ E Hc Hu Hm) as [Hu' Hm'].
    specialize (IH st' Hrest Hu' Hm').
    destruct (run st' rest) as [st'' es]. exact IH.
  - now apply IH.
Qed.

(** C1.  When the loop already holds an update that the data client has
    not received and a request produces another one, the pending update
    becomes the missed update error, the store still takes the change,
    and the request is answered as usual, without an error.  The next
    [LoadUpdate] returns the error with no routes and no deleted ids,
    also when further requests and [LoadAll] calls come first. *)
Theorem second_update_is_missed st req st' rsp :
  actor.updateRelay st = relay_update ->
  iteration st (case_request req) = Some (st', responded rsp) ->
  hasData (snd (handle (actor.self st) req)) = true ->
  actor.updateRelay st' = relay_update
  /\ actor.updateToSend st' = missed
  /\ actor.self st' = fst (fst (handle (actor.self st) req))
  /\ rsp = snd (fst (handle (actor.self st) req))
  /\ response.err rsp = None
  /\ (exists st'',
        LoadUpdate st' = Some (st'', ([], [], Some errMissedUpdate)))
  /\ (forall schedule,
        ~ In case_updateRelay schedule ->
        actor.returned (fst (run st' schedule)) = false ->
        exists st'',
          LoadUpdate (fst (run st' schedule)) =
          Some (st'', ([], [], Some errMissedUpdate))).
Proof.
  intros Hu Hit Hd.
  apply iteration_request in Hit.
  destruct Hit as [Hr [He [Hself [_ [Hr' Hslot]]]]].
  rewrite Hd, Hu in Hslot. inversion Hslot as [[Hu' Hm']].
  inversion He; subst rsp.
  repeat split; try assumption.
  - now apply handle_update_no_err.
  - destruct (LoadUpdate_pending st' Hr' Hu') as [st'' [E _]].
    exists st''. rewrite E, Hm'. reflexivity.
  - intros schedule Hn Hret.
    destruct (missed_stays_run schedule st' Hn Hu' Hm') as [Hu'' Hm''].
    destruct (LoadUpdate_pending _ Hret Hu'') as [st'' [E _]].
    exists st''. rewrite E, Hm''. reflexivity.
Qed.

Lemma run_returned schedule : forall st,
  actor.returned st = true -> run st schedule = (st, []).
Proof.
  induction schedule as [|c rest IH]; intros st Hr; simpl; [reflexivity|].
  unfold iteration. rewrite Hr. now apply IH.
Qed.

(** C2, as the code has it.  Once [run] has taken the stop case it takes
    no other: no request is answered, no [LoadAll] is answered and no
    update is relayed, under any schedule.  A caller of [LoadUpdate] or
    [LoadAll] is not released by the stop; it stays blocked. *)
Theorem stopped_actor_serves_nothing st st' :
  iteration st case_stop = Some (st', stopped) ->
  actor.returned st' = true
  /\ (forall c, iteration st' c = None)
  /\ (forall schedule, run st' schedule = (st', []))
  /\ (forall schedule, LoadUpdate (fst (run st' schedule)) = None)
  /\ (forall schedule, LoadAll (fst (run st' schedule)) = None).
Proof.
  intros H. unfold iteration in H.
  destruct (actor.returned st); [discriminate|].
  destruct (actor.stop_closed st); [|discriminate].
  inversion H; subst. clear H.
  match goal with |- actor.returned ?x = _ /\ _ => set (st' := x) end.
  assert (Hr : actor.returned st' = true) by reflexivity.
  assert (Hnone : forall c, iteration st' c = None).
  { intros c. unfold iteration. now rewrite Hr. }
  split; [exact Hr|]. split; [exact Hnone|].
  split; [|split]; intros schedule.
  - now apply run_returned.
  - rewrite run_returned by exact Hr. simpl.
    unfold LoadUpdate. now rewrite Hnone.
  - rewrite run_returned by exact Hr. simpl.
    unfold LoadAll. now rewrite Hnone.
Qed.

(** C7.  A request that is answered with an error leaves the actor as
    it was: the routes of the store, the defaults and the pending update
    are the same after it, and the handler produced no update.  The only
    errors a handler gives are not found and the bad request of [put] and
    [patch]. *)
Theorem failed_request_commits_nothing st req st' rsp :
  iteration st (case_request req) = Some (st', responded rsp) ->
  response.err rsp <> None ->
  st' = st
  /\ fst (fst (handle (actor.self st) req)) = actor.self st
  /\ snd (handle (actor.self st) req) = updateMessage.zero
  /\ hasData (snd (handle (actor.self st) req)) = false
  /\ (response.err rsp = Some errNotFound
      \/ response.err rsp =
           Some (errBadRequest "exactly one route expected")).
Proof.
  intros Hit Herr. apply iteration_request in Hit.
  destruct Hit as [Hr [He [Hself [Hc [Hr' Hslot]]]]].
  inversion He; subst rsp. clear He.
  destruct (handle_err _ _ Herr) as [Hs [Hz Hk]].
  rewrite Hz in *. simpl in Hslot.
  repeat split; try assumption; try reflexivity.
  apply actor_eq; congruence.
Qed.

(** C9.  [LoadAll] is answered with the defaults followed by all the
    routes of the store (the loop replies with exactly the routes of the
    store), without an error, and the actor is in the same state after
    it: the pending update and what [LoadUpdate] will return are
    untouched. *)
Theorem LoadAll_leaves_pending_update st :
  actor.returned st = false ->
  iteration st case_getAll =
    Some (st, reply_all {| updateMessage.routes := Spec.routes (actor.self st);
                           updateMessage.deletedIDs := [];
                           updateMessage.err := None |})
  /\ LoadAll st =
       Some (st,
             (Spec.defaults (actor.self st) ++ Spec.routes (actor.self st),
              None))
  /\ (forall st' ans,
        LoadAll st = Some (st', ans) ->
        (forall r, In r (Spec.routes (actor.self st)) -> In r (fst ans))
        /\ actor.updateRelay st' = actor.updateRelay st
        /\ actor.updateToSend st' = actor.updateToSend st
        /\ LoadUpdate st' = LoadUpdate st).
Proof.
  intros Hr.
  assert (E : iteration st case_getAll =
              Some (st, reply_all
                          {| updateMessage.routes := Spec.routes (actor.self st);
                             updateMessage.deletedIDs := [];
                             updateMessage.err := None |})).
  { unfold iteration. now rewrite Hr. }
  assert (E' : LoadAll st =
               Some (st,
                     (Spec.defaults (actor.self st)
                        ++ Spec.routes (actor.self st), None))).
  { unfold LoadAll. now rewrite E. }
  split; [exact E|]. split; [exact E'|].
  intros st' ans H. rewrite E' in H. inversion H; subst. clear H.
  split; [|now repeat split].
  intros r Hin. simpl. apply in_or_app. now right.
Qed.

(** C4.  In every state the actor reaches, for every id [d] of a
    default route: an individual request on [d], whatever its method,
    leaves the store as it is and produces no update; no request at all
    produces an update that names [d] as deleted, and neither the
    pending update nor what [LoadUpdate] returns does; and after any
    request, so also after a PUT or a DELETE on the root that names [d],
    the default route of [d] is still in the listing and still what the
    individual GET returns. *)
Theorem defaults_are_protected st d :
  reachable st ->
  In d (routesToIDs (Spec.defaults (actor.self st))) ->
  let s := actor.self st in
  (forall req,
     request.id req = d ->
     fst (fst (handleIndividual s req)) = s
     /\ snd (handleIndividual s req) = updateMessage.zero)
  /\ (forall req,
        request.id req = d -> d <> "" ->
        fst (fst (handle s req)) = s
        /\ hasData (snd (handle s req)) = false)
  /\ (forall req, ~ In d (updateMessage.deletedIDs (snd (handle s req))))
  /\ ~ In d (updateMessage.deletedIDs (actor.updateToSend st))
  /\ (forall st' routes deletedIDs err,
        LoadUpdate st = Some (st', (routes, deletedIDs, err)) ->
        ~ In d deletedIDs)
  /\ (forall req reqd,
        request.id reqd = d ->
        let s' := fst (fst (handle s req)) in
        exists r,
          find (hasId d) (Spec.defaults s) = Some r
          /\ In r (response.routes (getRoot s' reqd))
          /\ get s' reqd = {| response.withContent := true;
                              response.routes := [r];
                              response.err := None |}).
Proof.
  intros Hreach Hd s.
  destruct (reachable_protects_defaults st Hreach) as [Hs Hu]. fold s in Hs.
  split; [|split; [|split; [|split; [|split]]]].
  - intros req <-. now apply handleIndividual_default.
  - intros req <- Hne. rewrite (handle_individual s req Hne).
    destruct (handleIndividual_default s req Hs Hd) as [E1 E2].
    split; [exact E1 | now rewrite E2].
  - intros req H. apply handle_deletedIDs in H. now apply (Hs d).
  - intros H. now apply (Hu d).
  - intros st' routes deletedIDs err H.
    apply LoadUpdate_Some in H. destruct H as [_ [_ [E _]]].
    inversion E; subst. intros H. now apply (Hu d).
  - intros req reqd Hid s'.
    assert (Hdef : Spec.defaults s' = Spec.defaults s) by apply handle_defaults.
    assert (Hd' : In (request.id reqd) (routesToIDs (Spec.defaults s')))
      by (rewrite Hid, Hdef; exact Hd).
    destruct (get_default s' reqd Hd') as [r [Hr [Hi [Hf Hg]]]].
    exists r. rewrite <- Hdef, <- Hid. repeat split; try assumption.
    unfold getRoot. simpl. apply in_or_app. now right.
Qed.

(** C8.  In every state the actor reaches, for every id [d] of a
    default route, the individual GET finds the default route while the
    individual DELETE answers not found and changes nothing, because
    [del] looks only into the routes of the store.  For any store, [del]
    answers not found exactly when no route of the store has the id, and
    otherwise answers without an error. *)
Theorem default_is_read_but_not_deleted st d :
  reachable st ->
  In d (routesToIDs (Spec.defaults (actor.self st))) ->
  let s := actor.self st in
  (forall req,
     request.id req = d ->
     exists r,
       In r (Spec.defaults s) /\ eskip.Id r = d
       /\ get s req = {| response.withContent := true;
                         response.routes := [r];
                         response.err := None |})
  /\ (forall req,
        request.id req = d ->
        del s req = (s, withErr errNotFound, updateMessage.zero))
  /\ (forall req,
        request.id req = d -> d <> "" ->
        (request.method req = "GET" ->
         handle s req = (s, get s req, updateMessage.zero))
        /\ (request.method req = "DELETE" -> handle s req = del s req))
  /\ (forall s0 req,
        response.err (snd (fst (del s0 req))) = Some errNotFound <->
        ~ In (request.id req) (routesToIDs (Spec.routes s0)))
  /\ (forall s0 req,
        response.err (snd (fst (del s0 req))) = None <->
        In (request.id req) (routesToIDs (Spec.routes s0))).
Proof.
  intros Hreach Hd s.
  destruct (reachable_protects_defaults st Hreach) as [Hs _]. fold s in Hs.
  assert (Hdel : forall s0 req,
             ~ In (request.id req) (routesToIDs (Spec.routes s0)) ->
             response.err (snd (fst (del s0 req))) = Some errNotFound).
  { intros s0 req Hn. now rewrite del_not_found. }
  split; [|split; [|split; [|split]]].
  - intros req <-. destruct (get_default s req Hd) as [r [Hr [Hi [_ Hg]]]].
    exists r. auto.
  - intros req <-. apply del_not_found. intros H. now apply (Hs _ H).
  - intros req <- Hne. rewrite (handle_individual s req Hne).
    split; intros Hm; unfold handleIndividual; rewrite Hm; reflexivity.
  - intros s0 req. split; [|apply Hdel].
    intros H Hin. rewrite (del_found s0 req Hin) in H. discriminate.
  - intros s0 req. split; [|apply del_found].
    intros H. destruct (in_dec string_dec (request.id req)
                          (routesToIDs (Spec.routes s0))) as [Hin|Hn];
      [exact Hin|]. rewrite (Hdel s0 req Hn) in H. discriminate.
Qed.


End Properties.

(** * The theorems at work on the sample data *)

Section Witnesses.

#[local] Existing Instance Sample.print_route.

Import Sample.

(** Two PUTs on the root before the data client asks: the second one is
    answered as usual and [LoadUpdate] gets the missed update error. *)
Lemma second_update_is_missed_witness :
  actor.updateRelay pending = relay_update
  /\ iteration pending (case_request (on_root "PUT" [bar] [])) =
       Some (after pending (case_request (on_root "PUT" [bar] [])),
             responded response.zero)
  /\ hasData (snd (handle (actor.self pending) (on_root "PUT" [bar] [])))
     = true
  /\ actor.updateToSend
       (after pending (case_request (on_root "PUT" [bar] []))) = missed.
Proof.
  assert (H1 : actor.updateRelay pending = relay_update) by reflexivity.
  assert (H2 : iteration pending (case_request (on_root "PUT" [bar] [])) =
               Some (after pending (case_request (on_root "PUT" [bar] [])),
                     responded response.zero)) by reflexivity.
  assert (H3 : hasData (snd (handle (actor.self pending)
                               (on_root "PUT" [bar] []))) = true)
    by reflexivity.
  split; [exact H1|]. split; [exact H2|]. split; [exact H3|].
  exact (proj1 (proj2 (second_update_is_missed _ _ _ _ H1 H2 H3))).
Defined.

(** C2, as the specification states it, does not hold of the code: a
    caller blocked in [LoadUpdate] when the actor stops is never answered.  Nothing is pending, so the
    caller waits; [Close] is called and the loop returns; from then on
    no schedule makes [LoadUpdate] return, with an error or otherwise. *)
Lemma LoadUpdate_blocked_after_stop :
  LoadUpdate idle = None
  /\ Close idle = Some closed
  /\ iteration closed case_stop = Some (halted, stopped)
  /\ ~ exists schedule st ans,
         LoadUpdate (fst (run halted schedule)) = Some (st, ans).
Proof.
  repeat split.
  intros [schedule [st [ans H]]].
  rewrite run_returned in H by reflexivity. discriminate H.
Qed.

Lemma stopped_actor_serves_nothing_witness :
  iteration closed case_stop = Some (halted, stopped)
  /\ forall schedule, LoadUpdate (fst (run halted schedule)) = None.
Proof.
  assert (H : iteration closed case_stop = Some (halted, stopped))
    by reflexivity.
  split; [exact H|].
  exact (proj1 (proj2 (proj2 (proj2 (stopped_actor_serves_nothing _ _ H))))).
Defined.

(** A PUT on the root with [foo] twice and a route under the id of a
    default: the store is left with the first [foo] alone. *)
Lemma replace_root_witness :
  request.id (on_root "PUT" [foo; self; foo1] []) = ""
  /\ (request.method (on_root "PUT" [foo; self; foo1] []) = "PUT"
      \/ request.method (on_root "PUT" [foo; self; foo1] []) = "POST")
  /\ Spec.routes (fst (fst (handle store (on_root "PUT" [foo; self; foo1] []))))
     = [foo].
Proof.
  assert (H1 : request.id (on_root "PUT" [foo; self; foo1] []) = "")
    by reflexivity.
  assert (H2 : request.method (on_root "PUT" [foo; self; foo1] []) = "PUT"
               \/ request.method (on_root "PUT" [foo; self; foo1] []) = "POST")
    by (left; reflexivity).
  split; [exact H1|]. split; [exact H2|].
  rewrite (proj1 (replace_root_sets_unique_without_defaults store _ H1 H2)).
  reflexivity.
Defined.

Lemma defaults_are_protected_witness :
  reachable idle
  /\ In DefaultSelfID (routesToIDs (Spec.defaults (actor.self idle)))
  /\ ~ In DefaultSelfID (updateMessage.deletedIDs (actor.updateToSend idle)).
Proof.
  assert (H1 : reachable idle) by apply reachable_New.
  assert (H2 : In DefaultSelfID
                 (routesToIDs (Spec.defaults (actor.self idle))))
    by (left; reflexivity).
  split; [exact H1|]. split; [exact H2|].
  exact (proj1 (proj2 (proj2 (proj2
           (defaults_are_protected idle DefaultSelfID H1 H2))))).
Defined.

(** A DELETE on the root that names [foo], an id the store does not
    have and the id of a default, and carries the route [baz]: only
    [foo] goes. *)
Lemma delete_from_root_witness :
  request.id (on_root "DELETE" [baz] ["foo"; "qux"; DefaultSelfID]) = ""
  /\ request.method (on_root "DELETE" [baz] ["foo"; "qux"; DefaultSelfID])
     = "DELETE"
  /\ updateMessage.deletedIDs
       (snd (handle store (on_root "DELETE" [baz] ["foo"; "qux"; DefaultSelfID])))
     = ["foo"].
Proof.
  assert (H1 : request.id
                 (on_root "DELETE" [baz] ["foo"; "qux"; DefaultSelfID]) = "")
    by reflexivity.
  assert (H2 : request.method
                 (on_root "DELETE" [baz] ["foo"; "qux"; DefaultSelfID])
               = "DELETE") by reflexivity.
  split; [exact H1|]. split; [exact H2|].
  rewrite (proj1 (proj2
             (delete_from_root_removes_present_candidates store _ H1 H2))).
  reflexivity.
Defined.

Lemma upsert_root_witness :
  request.id (on_root "PATCH" [foo1; baz] []) = ""
  /\ request.method (on_root "PATCH" [foo1; baz] []) = "PATCH"
  /\ In bar (Spec.routes store)
  /\ ~ In (eskip.Id bar) (routesToIDs (request.routes (on_root "PATCH" [foo1; baz] [])))
  /\ In bar (Spec.routes (fst (fst (handle store (on_root "PATCH" [foo1; baz] []))))).
Proof.
  assert (H1 : request.id (on_root "PATCH" [foo1; baz] []) = "")
    by reflexivity.
  assert (H2 : request.method (on_root "PATCH" [foo1; baz] []) = "PATCH")
    by reflexivity.
  assert (H3 : In bar (Spec.routes store)) by (right; left; reflexivity).
  assert (H4 : ~ In (eskip.Id bar)
                 (routesToIDs (request.routes (on_root "PATCH" [foo1; baz] [])))).
  { simpl. intros [H|[H|[]]]; discriminate H. }
  split; [exact H1|]. split; [exact H2|]. split; [exact H3|]. split; [exact H4|].
  exact (proj1 (upsert_root_never_deletes store _ H1 H2) bar H3 H4).
Defined.

(** A DELETE on a route that does not exist. *)
Lemma failed_request_witness :
  iteration pending (case_request (on_route "qux" "DELETE" [])) =
    Some (pending, responded (withErr errNotFound))
  /\ response.err (withErr errNotFound) <> None
  /\ snd (handle (actor.self pending) (on_route "qux" "DELETE" []))
     = updateMessage.zero.
Proof.
  assert (H1 : iteration pending (case_request (on_route "qux" "DELETE" [])) =
               Some (pending, responded (withErr errNotFound)))
    by reflexivity.
  assert (H2 : response.err (withErr errNotFound) <> None) by discriminate.
  split; [exact H1|]. split; [exact H2|].
  exact (proj1 (proj2 (proj2
           (failed_request_commits_nothing _ _ _ _ H1 H2)))).
Defined.

Lemma default_is_read_but_not_deleted_witness :
  reachable idle
  /\ In DefaultSelfID (routesToIDs (Spec.defaults (actor.self idle)))
  /\ del (actor.self idle) (on_route DefaultSelfID "DELETE" []) =
     (actor.self idle, withErr errNotFound, updateMessage.zero).
Proof.
  assert (H1 : reachable idle) by apply reachable_New.
  assert (H2 : In DefaultSelfID
                 (routesToIDs (Spec.defaults (actor.self idle))))
    by (left; reflexivity).
  split; [exact H1|]. split; [exact H2|].
  exact (proj1 (proj2
           (default_is_read_but_not_deleted idle DefaultSelfID H1 H2))
           (on_route DefaultSelfID "DELETE" []) eq_refl).
Defined.

Lemma LoadAll_witness :
  actor.returned pending = false
  /\ LoadAll pending = Some (pending, (SelfRoutes ++ [foo], None)).
Proof.
  assert (H : actor.returned pending = false) by reflexivity.
  split; [exact H|].
  exact (proj1 (proj2 (LoadAll_leaves_pending_update pending H))).
Defined.


(** The scenarios of the package's tests, run on the model. *)

(** A PUT of [foo] and [bar] on the root, then a PUT of [foo] alone: the
    second update reports [bar] as deleted and nothing as upserted, and
    the listing has the routes before the defaults. *)
Example replace_twice :
  let '(s1, _, u1) := handle store (on_root "PUT" [foo; bar; baz] []) in
  let '(s2, _, u2) := handle s1 (on_root "PUT" [foo1; baz] []) in
  u1 = {| updateMessage.routes := [baz];
          updateMessage.deletedIDs := [];
          updateMessage.err := None |}
  /\ u2 = {| updateMessage.routes := [foo1];
             updateMessage.deletedIDs := ["bar"];
             updateMessage.err := None |}
  /\ response.routes (getRoot s2 (on_root "GET" [] [])) =
     [foo1; baz] ++ SelfRoutes.
Proof. repeat split. Qed.

(** The same PUT twice: the second produces no update. *)
Example replace_is_idempotent :
  let '(s1, _, _) := handle store (on_root "PUT" [foo1; baz] []) in
  hasData (snd (handle s1 (on_root "PUT" [foo1; baz] []))) = false.
Proof. reflexivity. Qed.

(** PUT, PATCH and GET on single routes. *)
Example put_patch_get :
  let '(s1, r1, _) := handle store (on_route "baz" "PUT" [foo]) in
  let '(s2, r2, _) := handle s1 (on_route "baz" "PATCH" [bar]) in
  let '(_, r3, _) := handle s2 (on_route "baz" "GET" []) in
  let '(_, r4, _) := handle s2 (on_route "qux" "PATCH" [bar]) in
  let '(_, r5, _) := handle s2 (on_route "qux" "PUT" []) in
  response.err r1 = None
  /\ response.err r2 = None
  /\ response.routes r3 = [route "baz" "/bar" "https://bar.example.org"]
  /\ response.err r4 = Some errNotFound
  /\ response.err r5 = Some (errBadRequest "exactly one route expected").
Proof. repeat split. Qed.

(** An update, its delivery, and the next update. *)
Example deliver_then_update :
  let st1 := after pending case_updateRelay in
  let st2 := after st1 (case_request (on_root "PATCH" [bar] [])) in
  LoadUpdate pending = Some (st1, ([foo], [], None))
  /\ LoadUpdate st1 = None
  /\ LoadUpdate st2 = Some (after st2 case_updateRelay, ([bar], [], None)).
Proof. repeat split. Qed.

End Witnesses.

(** * More of the route sets and of the store *)

Section SetProperties.

Context {route_Stringer : Stringer eskip.Route}.

Lemma unique_loop_NoDup_app r : forall u,
  NoDup (routesToIDs (u ++ r)) -> fold_left unique_step r u = u ++ r.
Proof.
  induction r as [|ri r IH]; intros u H; simpl.
  - now rewrite app_nil_r.
  - assert (Hri : existsb (hasId (eskip.Id ri)) u = false).
    { apply existsb_hasId_false. intros Hin.
      rewrite routesToIDs_app in H. simpl in H.
      apply NoDup_remove_2 in H. apply H, in_or_app. now left. }
    unfold unique_step at 2. rewrite Hri, IH.
    + now rewrite <- app_assoc.
    + now rewrite <- app_assoc.
Qed.

(** X1.  [uniqueRoutes] changes nothing exactly when no id occurs twice, so a
    second pass over its own result changes nothing. *)
Theorem uniqueRoutes_fixes_sets r :
  (uniqueRoutes r = r <-> NoDup (routesToIDs r))
  /\ uniqueRoutes (uniqueRoutes r) = uniqueRoutes r.
Proof.
  assert (H : forall l, NoDup (routesToIDs l) -> uniqueRoutes l = l).
  { intros l Hl. apply (unique_loop_NoDup_app l []). exact Hl. }
  split; [split|].
  - intros E. rewrite <- E. apply NoDup_uniqueRoutes.
  - apply H.
  - apply H, NoDup_uniqueRoutes.
Qed.

Lemma removeRoutes_nil_r a : removeRoutes a [] = a.
Proof.
  rewrite removeRoutes_filter. simpl.
  induction a as [|x a IH]; simpl; [reflexivity | now rewrite IH].
Qed.

Lemma removeRoutes_self a : removeRoutes a a = [].
Proof.
  rewrite removeRoutes_filter.
  assert (H : forall l, incl l a ->
              filter (fun ai => negb (existsb (hasId (eskip.Id ai)) a)) l = []).
  { induction l as [|x l IH]; intros Hl; simpl; [reflexivity|].
    assert (Hx : existsb (hasId (eskip.Id x)) a = true).
    { apply existsb_hasId, in_map, Hl. now left. }
    rewrite Hx. simpl. apply IH. intros y Hy. apply Hl. now right. }
  apply H, incl_refl.
Qed.

(** X2.  [removeRoutes] as a difference of sets: taking away nothing, taking
    away the set itself, taking away twice, and the order of two
    removals. *)
Theorem removeRoutes_difference a b c :
  removeRoutes a [] = a
  /\ removeRoutes a a = []
  /\ removeRoutes (removeRoutes a b) c = removeRoutes a (b ++ c)
  /\ removeRoutes (removeRoutes a b) c = removeRoutes (removeRoutes a c) b.
Proof.
  assert (Hbc : forall b c,
             removeRoutes (removeRoutes a b) c = removeRoutes a (b ++ c)).
  { intros b0 c0. rewrite !removeRoutes_filter.
    clear. induction a as [|x a IH]; simpl; [reflexivity|].
    rewrite existsb_app.
    destruct (existsb (hasId (eskip.Id x)) b0); simpl; [exact IH|].
    destruct (existsb (hasId (eskip.Id x)) c0); simpl; [exact IH|].
    now rewrite IH. }
  split; [apply removeRoutes_nil_r|]. split; [|split].
  - apply removeRoutes_self.
  - apply Hbc.
  - rewrite !Hbc, !removeRoutes_filter. apply filter_ext. intros x.
    rewrite !existsb_app. apply f_equal, orb_comm.
Qed.

Lemma find_hasId_self r l :
  NoDup (routesToIDs l) -> In r l -> find (hasId (eskip.Id r)) l = Some r.
Proof.
  induction l as [|x l IH]; simpl; intros Hn Hin; [destruct Hin|].
  inversion Hn as [|? ? Hx Hl]; subst.
  destruct Hin as [->|Hin].
  - unfold hasId. now rewrite String.eqb_refl.
  - destruct (hasId (eskip.Id r) x) eqn:E.
    + apply hasId_true in E. exfalso. apply Hx. rewrite E. now apply in_map.
    + now apply IH.
Qed.

(** X3.  Ids and routes, there and back: the ids of a set resolve to the set
    itself, and the routes that ids resolve to carry, in order, the ids
    that [from] knows. *)
Theorem ids_resolve_to_their_routes r :
  NoDup (routesToIDs r) ->
  idsToRoutes (routesToIDs r) r = r
  /\ forall ids from,
       routesToIDs (idsToRoutes ids from) =
       filter (fun i => existsb (hasId i) from) ids.
Proof.
  intros Hn. split.
  - rewrite idsToRoutes_flat_map. unfold routesToIDs. rewrite flat_map_concat_map.
    rewrite map_map.
    assert (H : forall l, incl l r ->
                List.concat (map (fun x => match find (hasId (eskip.Id x)) r with
                                      | Some r0 => [r0]
                                      | None => []
                                      end) l) = l).
    { induction l as [|x l IH]; intros Hl; simpl; [reflexivity|].
      rewrite (find_hasId_self x r Hn) by (apply Hl; now left).
      simpl. f_equal. apply IH. intros y Hy. apply Hl. now right. }
    apply H, incl_refl.
  - intros ids from. rewrite idsToRoutes_flat_map.
    induction ids as [|i ids IH]; simpl; [reflexivity|].
    rewrite routesToIDs_app, IH.
    destruct (find (hasId i) from) as [x|] eqn:E.
    + assert (Hex : existsb (hasId i) from = true).
      { apply existsb_hasId. apply find_hasId_Some in E.
        destruct E as [Hin <-]. now apply in_map. }
      rewrite Hex. simpl. apply find_hasId_Some in E. now destruct E as [_ ->].
    + apply find_hasId_None, existsb_hasId_false in E. now rewrite E.
Qed.

Lemma In_ids_changedRoutes i prev next :
  In i (routesToIDs (changedRoutes prev next)) <->
  exists p n,
    In p prev /\ eskip.Id p = i /\ find (hasId i) next = Some n
    /\ (String_ n =? String_ p)%string = false.
Proof.
  rewrite In_ids_map. split.
  - intros [r [Hr Hi]]. rewrite changedRoutes_flat_map, in_flat_map in Hr.
    destruct Hr as [p [Hp Hr]].
    destruct (find (hasId (eskip.Id p)) next) as [n|] eqn:E; [|destruct Hr].
    destruct (String_ n =? String_ p)%string eqn:Es; simpl in Hr; [destruct Hr|].
    destruct Hr as [<-|[]]. pose proof (find_hasId_Some _ _ _ E) as [_ En].
    exists p, n. repeat split; try assumption; congruence.
  - intros [p [n [Hp [Hi [E Es]]]]]. exists n. split.
    + rewrite changedRoutes_flat_map, in_flat_map. exists p. split; [exact Hp|].
      rewrite Hi, E, Es. simpl. now left.
    + now apply find_hasId_Some in E.
Qed.

Lemma find_changedRoutes i prev next :
  NoDup (routesToIDs prev) ->
  find (hasId i) (changedRoutes prev next) =
  match find (hasId i) prev, find (hasId i) next with
  | Some p, Some n => if (String_ n =? String_ p)%string then None else Some n
  | _, _ => None
  end.
Proof.
  rewrite changedRoutes_flat_map.
  induction prev as [|x prev IH]; simpl; intros Hn; [reflexivity|].
  inversion Hn as [|? ? Hx Hp]; subst. rewrite find_hasId_app.
  destruct (hasId i x) eqn:Ex.
  - apply hasId_true in Ex. subst i.
    assert (Hrest : find (hasId (eskip.Id x))
                      (flat_map (fun pi =>
                         match find (hasId (eskip.Id pi)) next with
                         | Some ni =>
                             if negb (String_ ni =? String_ pi)%string
                             then [ni] else []
                         | None => []
                         end) prev) = None).
    { rewrite (IH Hp). apply find_hasId_None in Hx. now rewrite Hx. }
    destruct (find (hasId (eskip.Id x)) next) as [n|] eqn:E; simpl.
    + destruct (String_ n =? String_ x)%string; simpl; [exact Hrest|].
      apply find_hasId_Some in E. destruct E as [_ E].
      unfold hasId. now rewrite E, String.eqb_refl.
    + exact Hrest.
  - assert (Hskip : find (hasId i)
                      match find (hasId (eskip.Id x)) next with
                      | Some ni =>
                          if negb (String_ ni =? String_ x)%string
                          then [ni] else []
                      | None => []
                      end = None).
    { destruct (find (hasId (eskip.Id x)) next) as [n|] eqn:E; [|reflexivity].
      destruct (negb _); [|reflexivity]. simpl.
      apply find_hasId_Some in E. destruct E as [_ E].
      unfold hasId in *. now rewrite E, Ex. }
    rewrite Hskip. now apply IH.
Qed.

Lemma changedRoutes_same r :
  NoDup (routesToIDs r) -> changedRoutes r r = [].
Proof.
  intros Hn. rewrite changedRoutes_flat_map.
  assert (H : forall l, incl l r ->
              flat_map (fun pi =>
                match find (hasId (eskip.Id pi)) r with
                | Some ni =>
                    if negb (String_ ni =? String_ pi)%string then [ni] else []
                | None => []
                end) l = []).
  { induction l as [|x l IH]; intros Hl; simpl; [reflexivity|].
    rewrite (find_hasId_self x r Hn) by (apply Hl; now left).
    rewrite String.eqb_refl. simpl. apply IH. intros y Hy. apply Hl. now right. }
  apply H, incl_refl.
Qed.

(** X4.  What [replaceRoutes] reports is what changed: the deleted ids are the
    ids that [prev] has and [next] has not; every upserted route is a
    route of [next] and is not reported as deleted; and a route of [next]
    whose id is not upserted has the id of a route of [prev] that prints
    the same. *)
Theorem replaceRoutes_reports_the_difference prev next :
  let next' := fst (fst (replaceRoutes prev next)) in
  let upserted := snd (fst (replaceRoutes prev next)) in
  let deletedIDs := snd (replaceRoutes prev next) in
  next' = next
  /\ (forall i,
        In i deletedIDs <->
        In i (routesToIDs prev) /\ ~ In i (routesToIDs next))
  /\ (forall r, In r upserted -> In r next /\ ~ In (eskip.Id r) deletedIDs)
  /\ (forall i r,
        find (hasId i) upserted = Some r -> find (hasId i) next = Some r)
  /\ (forall i,
        In i (routesToIDs next) -> ~ In i (routesToIDs upserted) ->
        exists p n,
          find (hasId i) prev = Some p /\ find (hasId i) next = Some n
          /\ String_ n = String_ p).
Proof.
  unfold replaceRoutes. simpl.
  assert (Hdel : forall i,
             In i (routesToIDs (removeRoutes prev next)) <->
             In i (routesToIDs prev) /\ ~ In i (routesToIDs next))
    by (intros i; apply In_ids_removeRoutes).
  assert (Hin : forall r,
             In r (removeRoutes next prev ++ changedRoutes prev next) ->
             In r next).
  { intros r Hr. apply in_app_or in Hr. destruct Hr as [Hr|Hr].
    - now apply In_removeRoutes in Hr.
    - now apply In_changedRoutes in Hr. }
  split; [reflexivity|]. split; [exact Hdel|]. split; [|split].
  - intros r Hr. split; [now apply Hin|].
    intros Hd. apply Hdel in Hd. destruct Hd as [_ Hd]. apply Hd.
    apply in_map. now apply Hin.
  - intros i r Hf. rewrite find_hasId_app in Hf.
    rewrite find_removeRoutes in Hf.
    destruct (existsb (hasId i) prev) eqn:Ep.
    + destruct (find_hasId_Some _ _ _ Hf) as [Hr Hi].
      assert (Hc : In i (routesToIDs (changedRoutes prev next)))
        by (rewrite <- Hi; now apply in_map).
      apply In_ids_changedRoutes in Hc.
      destruct Hc as [p [n [_ [_ [En _]]]]].
      apply In_changedRoutes in Hr. destruct Hr as [Hr _].
      rewrite En. f_equal.
      (* the changed route with this id is the one [next] resolves it to *)
      clear - Hf En. rewrite changedRoutes_flat_map in Hf.
      induction prev as [|x prev IH]; simpl in Hf; [discriminate|].
      rewrite find_hasId_app in Hf.
      destruct (find (hasId (eskip.Id x)) next) as [m|] eqn:Em.
      * destruct (negb (String_ m =? String_ x)%string); simpl in Hf.
        -- destruct (hasId i m) eqn:Eim.
           ++ inversion Hf; subst. apply hasId_true in Eim.
              pose proof (find_hasId_Some _ _ _ Em) as [_ Ex].
              rewrite <- Ex, Eim in Em. congruence.
           ++ now apply IH.
        -- now apply IH.
      * now apply IH.
    + destruct (find (hasId i) next) as [n|] eqn:En; [exact Hf|].
      exfalso. destruct (find_hasId_Some _ _ _ Hf) as [Hr _].
      apply In_changedRoutes in Hr. destruct Hr as [Hr _].
      apply find_hasId_None in En. apply En.
      destruct (find_hasId_Some _ _ _ Hf) as [_ <-]. now apply in_map.
  - intros i Hi Hn. rewrite routesToIDs_app, in_app_iff in Hn.
    destruct (find (hasId i) prev) as [p|] eqn:Ep.
    + destruct (find (hasId i) next) as [n|] eqn:En.
      * exists p, n. repeat split.
        destruct (String_ n =? String_ p)%string eqn:Es;
          [now apply String.eqb_eq|].
        exfalso. apply Hn. right. apply In_ids_changedRoutes.
        destruct (find_hasId_Some _ _ _ Ep) as [Hp Hip].
        exists p, n. auto.
      * apply find_hasId_None in En. contradiction.
    + exfalso. apply Hn. left. apply In_ids_removeRoutes.
      apply find_hasId_None in Ep. auto.
Qed.

(** X5.  The same PUT or POST on the root twice in a row: the second changes
    nothing and produces no update. *)
Theorem replace_root_twice_is_silent s req :
  request.id req = "" ->
  request.method req = "PUT" \/ request.method req = "POST" ->
  let s1 := fst (fst (handle s req)) in
  handle s1 req = (s1, response.zero, updateMessage.zero).
Proof.
  intros Hid Hm s1. subst s1.
  rewrite !(handle_root _ _ Hid), !(handleRoot_replace _ _ Hm). simpl.
  set (X := removeRoutes (uniqueRoutes (request.routes req)) (Spec.defaults s)).
  assert (HX : NoDup (routesToIDs X))
    by apply NoDup_ids_removeRoutes, NoDup_uniqueRoutes.
  unfold putRoot, replaceRoutes. simpl. fold X.
  rewrite (removeRoutes_self X), (changedRoutes_same X HX). reflexivity.
Qed.

Lemma existsb_find i l :
  existsb (hasId i) l =
  match find (hasId i) l with Some _ => true | None => false end.
Proof.
  induction l as [|x l IH]; simpl; [reflexivity|].
  destruct (hasId i x); [reflexivity | exact IH].
Qed.

Lemma In_ids_find i l :
  In i (routesToIDs l) <-> find (hasId i) l <> None.
Proof.
  rewrite <- existsb_hasId, existsb_find.
  destruct (find (hasId i) l); split; congruence.
Qed.

Lemma NoDup_ids_changedRoutes prev next :
  NoDup (routesToIDs prev) -> NoDup (routesToIDs (changedRoutes prev next)).
Proof.
  intros Hn. induction prev as [|x prev IH].
  - constructor.
  - inversion Hn as [|? ? Hx Hp]; subst.
    assert (E : changedRoutes (x :: prev) next =
                match find (hasId (eskip.Id x)) next with
                | Some ni =>
                    if negb (String_ ni =? String_ x)%string then [ni] else []
                | None => []
                end ++ changedRoutes prev next)
      by (rewrite !changedRoutes_flat_map; reflexivity).
    rewrite E. clear E.
    destruct (find (hasId (eskip.Id x)) next) as [n|] eqn:En; [|now apply IH].
    destruct (negb _); [|now apply IH].
    simpl. constructor; [|now apply IH].
    apply find_hasId_Some in En. destruct En as [_ En]. rewrite En.
    intros H. apply In_ids_map in H. destruct H as [r [Hr Hi]].
    apply In_changedRoutes in Hr. destruct Hr as [_ Hr].
    apply Hx. now rewrite <- Hi.
Qed.

Lemma find_upsertRoutes to from i :
  NoDup (routesToIDs to) ->
  find (hasId i) (fst (upsertRoutes to from)) =
  match find (hasId i) from, find (hasId i) to with
  | None, t => t
  | Some f, None => Some f
  | Some f, Some t =>
      if (String_ f =? String_ t)%string then Some t else Some f
  end.
Proof.
  intros Hn. unfold upsertRoutes. simpl.
  rewrite !find_hasId_app, !find_removeRoutes, existsb_find,
    !find_hasId_app, !find_removeRoutes, !existsb_find,
    (find_changedRoutes i to from Hn).
  destruct (find (hasId i) to) as [t|]; destruct (find (hasId i) from) as [f|];
    try reflexivity.
  now destruct (String_ f =? String_ t)%string.
Qed.

Lemma NoDup_upsertRoutes to from :
  NoDup (routesToIDs to) -> NoDup (routesToIDs from) ->
  NoDup (routesToIDs (fst (upsertRoutes to from))).
Proof.
  intros Hn Hf. unfold upsertRoutes. simpl.
  rewrite !routesToIDs_app. apply NoDup_app.
  - now apply NoDup_ids_removeRoutes.
  - apply NoDup_app.
    + now apply NoDup_ids_removeRoutes.
    + now apply NoDup_ids_changedRoutes.
    + intros i Hi Hc. apply In_ids_removeRoutes in Hi.
      apply In_ids_map in Hc. destruct Hc as [r [Hr <-]].
      apply In_changedRoutes in Hr. tauto.
  - intros i Hi. apply In_ids_removeRoutes in Hi.
    rewrite <- routesToIDs_app. tauto.
Qed.

(** X6.  [upsertRoutes to from], for a set [to]: an id resolves to the route
    of [from], unless [from] lacks the id or [to] has a route under it
    that prints the same, and then to the route of [to]; every upserted
    route is in the result; the ids of the result are those of [to] and of
    [from]; and if [from] is a set, so is the result. *)
Theorem upsertRoutes_lookup to from :
  NoDup (routesToIDs to) ->
  let next := fst (upsertRoutes to from) in
  let upserted := snd (upsertRoutes to from) in
  (forall i,
     find (hasId i) next =
     match find (hasId i) from, find (hasId i) to with
     | None, t => t
     | Some f, None => Some f
     | Some f, Some t =>
         if (String_ f =? String_ t)%string then Some t else Some f
     end)
  /\ (forall r, In r upserted -> In r next)
  /\ (forall i,
        In i (routesToIDs next) <->
        In i (routesToIDs to) \/ In i (routesToIDs from))
  /\ (NoDup (routesToIDs from) -> NoDup (routesToIDs next)).
Proof.
  intros Hn next upserted.
  split; [intros i; now apply find_upsertRoutes|]. split; [|split].
  - intros r Hr. unfold next, upsertRoutes. simpl. apply in_or_app. now right.
  - intros i. unfold next. rewrite !In_ids_find, (find_upsertRoutes to from i Hn).
    destruct (find (hasId i) from) as [f|]; destruct (find (hasId i) to) as [t|];
      try (destruct (String_ f =? String_ t)%string);
      split; intros H; try tauto; try (left; discriminate);
      try (right; discriminate); try discriminate.
  - now apply NoDup_upsertRoutes.
Qed.

Lemma uniqueRoutes_nonempty r : r <> [] -> uniqueRoutes r <> [].
Proof.
  destruct r as [|x r]; [congruence|]. intros _ E.
  assert (H : In (eskip.Id x) (routesToIDs (uniqueRoutes (x :: r))))
    by (apply In_ids_uniqueRoutes; now left).
  rewrite E in H. destruct H.
Qed.

Lemma handle_NoDup s req :
  NoDup (routesToIDs (Spec.routes s)) ->
  NoDup (routesToIDs (Spec.routes (fst (fst (handle s req))))).
Proof.
  intros Hs.
  assert (Hup : forall from next upserted,
             upsertRoutes (Spec.routes s) from = (next, upserted) ->
             NoDup (routesToIDs from) -> NoDup (routesToIDs next)).
  { intros from next upserted E Hf.
    pose proof (NoDup_upsertRoutes (Spec.routes s) from Hs Hf) as H.
    now rewrite E in H. }
  assert (Hone : forall i routes,
             negb (List.length routes =? 1)%nat = false ->
             NoDup (routesToIDs (setFirstId i routes))).
  { intros i routes H. apply negb_false_iff in H.
    destruct (setFirstId_one i routes H) as [r [-> _]].
    constructor; [intros [] | constructor]. }
  unfold handle, handleRoot, handleIndividual, putRoot, patchInRoot,
    deleteFromRoot, put, patch, del, replaceRoutes.
  repeat match goal with
    | |- context [if ?b then _ else _] => destruct b eqn:?
    | |- context [upsertRoutes ?a ?b] => destruct (upsertRoutes a b) eqn:?
    | |- context [let '(_, _) := ?p in _] => destruct p eqn:?
    end; simpl; try exact Hs;
    try (apply NoDup_ids_removeRoutes; first [exact Hs | apply NoDup_uniqueRoutes]);
    try (eapply Hup; [eassumption|]).
  - apply NoDup_ids_removeRoutes, NoDup_uniqueRoutes.
  - apply NoDup_ids_removeRoutes. now apply Hone.
  - now apply Hone.
Qed.

Lemma reachable_NoDup st :
  reachable st ->
  Spec.defaults (actor.self st) <> []
  /\ NoDup (routesToIDs (Spec.defaults (actor.self st)))
  /\ NoDup (routesToIDs (Spec.routes (actor.self st))).
Proof.
  intros Hreach.
  induction Hreach as [o | st c st' e _ IH Hit | st st' _ IH Hc].
  - simpl. split; [|split; [apply NoDup_uniqueRoutes | constructor]].
    apply uniqueRoutes_nonempty.
    destruct (Options.DefaultRoutes o); simpl; discriminate.
  - rewrite (iteration_defaults _ _ _ _ Hit).
    destruct IH as [H1 [H2 H3]]. split; [exact H1|]. split; [exact H2|].
    destruct c.
    + unfold iteration in Hit. destruct (actor.returned st); [discriminate|].
      now inversion Hit; subst.
    + unfold iteration in Hit. destruct (actor.returned st); [discriminate|].
      destruct (actor.updateRelay st); [discriminate|].
      now inversion Hit; subst.
    + apply iteration_request in Hit. destruct Hit as [_ [_ [-> _]]].
      now apply handle_NoDup.
    + unfold iteration in Hit. destruct (actor.returned st); [discriminate|].
      destruct (actor.stop_closed st); [|discriminate].
      now inversion Hit; subst.
  - unfold Close in Hc. destruct (actor.stop_closed st); [discriminate|].
    inversion Hc; subst. exact IH.
Qed.

(** X9.  In every state the actor reaches, the defaults are a non-empty set,
    the routes of the store are a set, and the two share no id: what
    [LoadAll] returns never has an id twice, and it returns no error. *)
Theorem reachable_stores_hold_sets st :
  reachable st ->
  let s := actor.self st in
  Spec.defaults s <> []
  /\ NoDup (routesToIDs (Spec.defaults s))
  /\ NoDup (routesToIDs (Spec.routes s))
  /\ NoDup (routesToIDs (Spec.defaults s ++ Spec.routes s))
  /\ (forall st' routes err,
        LoadAll st = Some (st', (routes, err)) ->
        NoDup (routesToIDs routes) /\ err = None).
Proof.
  intros Hreach s.
  destruct (reachable_NoDup st Hreach) as [H1 [H2 H3]]. fold s in H1, H2, H3.
  assert (H4 : NoDup (routesToIDs (Spec.defaults s ++ Spec.routes s))).
  { rewrite routesToIDs_app. apply NoDup_app; try assumption.
    intros i Hd Hr.
    destruct (reachable_protects_defaults st Hreach) as [Hp _].
    now apply (Hp i). }
  repeat (split; [assumption|]).
  intros st' routes err HL. unfold LoadAll, iteration in HL.
  destruct (actor.returned st); [discriminate|].
  inversion HL; subst. split; [exact H4 | reflexivity].
Qed.

Lemma handleIndividual_put s req :
  request.method req = "PUT" \/ request.method req = "POST" ->
  handleIndividual s req = put s req.
Proof. intros [E|E]; unfold handleIndividual; rewrite E; reflexivity. Qed.

Lemma get_find s req :
  get s req =
  match find (hasId (request.id req)) (Spec.defaults s ++ Spec.routes s) with
  | Some r => {| response.withContent := true;
                 response.routes := [r];
                 response.err := None |}
  | None => withErr errNotFound
  end.
Proof.
  unfold get. rewrite idsToRoutes_one.
  now destruct (find (hasId (request.id req)) _).
Qed.

Lemma put_one s req r :
  request.routes req = [r] ->
  ~ In (request.id req) (routesToIDs (Spec.defaults s)) ->
  let r' := {| eskip.Id := request.id req;
               eskip.Path := eskip.Path r;
               eskip.Filters := eskip.Filters r;
               eskip.Shunt := eskip.Shunt r;
               eskip.Backend := eskip.Backend r |} in
  put s req =
  (setRoutes s (fst (upsertRoutes (Spec.routes s) [r'])), response.zero,
   {| updateMessage.routes := snd (upsertRoutes (Spec.routes s) [r']);
      updateMessage.deletedIDs := [];
      updateMessage.err := None |}).
Proof.
  intros Hr Hd r'. unfold put. rewrite Hr.
  cbn [List.length Nat.eqb negb setFirstId]. fold r'.
  rewrite removeRoutes_one.
  assert (Hex : existsb (hasId (eskip.Id r')) (Spec.defaults s) = false)
    by (apply existsb_hasId_false; exact Hd).
  rewrite Hex. cbn [List.length Nat.eqb].
  now destruct (upsertRoutes (Spec.routes s) [r']).
Qed.

(** X10.  An individual PUT or POST with one route, on an id that is no
    default's, in any state the actor reaches: the request is answered
    without an error; a GET on the id then returns one route, with that
    id, that prints as the route of the request does under that id; a GET
    on any other id returns what it returned before; and the update names
    no route but that one. *)
Theorem put_then_get st req r :
  reachable st ->
  request.id req <> "" ->
  request.method req = "PUT" \/ request.method req = "POST" ->
  request.routes req = [r] ->
  ~ In (request.id req) (routesToIDs (Spec.defaults (actor.self st))) ->
  let s := actor.self st in
  let s' := fst (fst (handle s req)) in
  let r' := {| eskip.Id := request.id req;
               eskip.Path := eskip.Path r;
               eskip.Filters := eskip.Filters r;
               eskip.Shunt := eskip.Shunt r;
               eskip.Backend := eskip.Backend r |} in
  response.err (snd (fst (handle s req))) = None
  /\ (forall reqg,
        request.id reqg = request.id req ->
        exists x,
          get s' reqg = {| response.withContent := true;
                           response.routes := [x];
                           response.err := None |}
          /\ eskip.Id x = request.id req
          /\ String_ x = String_ r')
  /\ (forall reqg,
        request.id reqg <> request.id req -> get s' reqg = get s reqg)
  /\ (forall x,
        In x (updateMessage.routes (snd (handle s req))) -> x = r')
  /\ updateMessage.deletedIDs (snd (handle s req)) = [].
Proof.
  intros Hreach Hid Hm Hr Hd s s' r'. subst s'.
  destruct (reachable_NoDup st Hreach) as [_ [_ HW]]. fold s in HW.
  rewrite (handle_individual _ _ Hid), (handleIndividual_put _ _ Hm).
  rewrite (put_one s req r Hr Hd). fold r'.
  assert (Hf := fun i => find_upsertRoutes (Spec.routes s) [r'] i HW).
  set (U := upsertRoutes (Spec.routes s) [r']) in *.
  cbn [find] in Hf. cbn [fst snd response.err response.zero updateMessage.routes
                         updateMessage.deletedIDs].
  assert (HD : find (hasId (request.id req)) (Spec.defaults s) = None)
    by (apply find_hasId_None; exact Hd).
  split; [reflexivity|]. split; [|split; [|split]].
  - intros reqg Hg. rewrite get_find. simpl. rewrite Hg, find_hasId_app, HD, Hf.
    unfold hasId at 1. simpl. rewrite String.eqb_refl.
    destruct (find (hasId (request.id req)) (Spec.routes s)) as [t|] eqn:Et.
    + destruct (String_ r' =? String_ t)%string eqn:Es.
      * exists t. apply find_hasId_Some in Et. apply String.eqb_eq in Es.
        repeat split; [tauto | congruence].
      * exists r'. repeat split.
    + exists r'. repeat split.
  - intros reqg Hg. rewrite !get_find.
    cbn [Spec.defaults Spec.routes setRoutes]. rewrite !find_hasId_app, Hf.
    unfold hasId at 2. cbn [eskip.Id r'].
    destruct (String.eqb_spec (request.id req) (request.id reqg)) as [E'|_];
      [congruence | reflexivity].
  - intros x Hx. unfold U, upsertRoutes in Hx. simpl in Hx.
    apply in_app_or in Hx. destruct Hx as [Hx|Hx].
    + apply In_removeRoutes in Hx. destruct Hx as [[Hx|[]] _]. now symmetry.
    + apply In_changedRoutes in Hx. destruct Hx as [[Hx|[]] _]. now symmetry.
  - reflexivity.
Qed.

(** X11.  An individual DELETE on an id the store has, in any state the actor
    reaches: the request is answered without an error, the update names
    that id alone, the store loses the routes of that id and no other, a
    GET on the id then answers not found, and a GET on any other id
    returns what it returned before. *)
Theorem delete_then_get st req :
  reachable st ->
  request.id req <> "" ->
  request.method req = "DELETE" ->
  In (request.id req) (routesToIDs (Spec.routes (actor.self st))) ->
  let s := actor.self st in
  let s' := fst (fst (handle s req)) in
  response.err (snd (fst (handle s req))) = None
  /\ snd (handle s req) =
       {| updateMessage.routes := [];
          updateMessage.deletedIDs := [request.id req];
          updateMessage.err := None |}
  /\ Spec.routes s' =
       filter (fun x => negb (hasId (request.id req) x)) (Spec.routes s)
  /\ (forall reqg,
        request.id reqg = request.id req ->
        get s' reqg = withErr errNotFound)
  /\ (forall reqg,
        request.id reqg <> request.id req -> get s' reqg = get s reqg).
Proof.
  intros Hreach Hid Hm Hin s s'. subst s'.
  destruct (reachable_protects_defaults st Hreach) as [Hp _]. fold s in Hp.
  rewrite (handle_individual _ _ Hid).
  unfold handleIndividual. rewrite Hm. simpl.
  unfold del. rewrite idsToRoutes_one.
  destruct (find (hasId (request.id req)) (Spec.routes s)) as [t|] eqn:Et;
    [|apply find_hasId_None in Et; contradiction].
  simpl. destruct (find_hasId_Some _ _ _ Et) as [_ Ht].
  assert (Hrem : removeRoutes (Spec.routes s) [t] =
                 filter (fun x => negb (hasId (request.id req) x)) (Spec.routes s)).
  { rewrite removeRoutes_filter. apply filter_ext. intros x. simpl.
    rewrite orb_false_r. unfold hasId. now rewrite Ht, String.eqb_sym. }
  assert (HD : find (hasId (request.id req)) (Spec.defaults s) = None).
  { apply find_hasId_None. intros H. now apply (Hp _ Hin). }
  split; [reflexivity|]. split; [now rewrite Ht|]. split; [exact Hrem|]. split.
  - intros reqg Hg. rewrite get_find. simpl.
    rewrite Hg, find_hasId_app, HD, find_removeRoutes. simpl.
    unfold hasId at 1. now rewrite Ht, String.eqb_refl.
  - intros reqg Hg. rewrite !get_find. simpl.
    rewrite !find_hasId_app, find_removeRoutes. simpl.
    unfold hasId at 2. rewrite Ht.
    destruct (String.eqb_spec (request.id req) (request.id reqg)) as [E'|_];
      [congruence | reflexivity].
Qed.

(** X12.  [patch] on an id that the defaults or the store have is [put]: the
    same store, the same response and the same update, whatever the
    request carries. *)
Theorem patch_is_put_on_known_ids s req :
  In (request.id req) (routesToIDs (Spec.defaults s ++ Spec.routes s)) ->
  patch s req = put s req.
Proof.
  intros H. unfold patch, put. rewrite idsToRoutes_one.
  destruct (find (hasId (request.id req)) (Spec.defaults s ++ Spec.routes s))
    as [t|] eqn:Et; [|apply find_hasId_None in Et; contradiction].
  cbn [List.length Nat.eqb].
  destruct (negb (List.length (request.routes req) =? 1)%nat) eqn:El;
    [reflexivity|].
  apply negb_false_iff in El.
  destruct (setFirstId_one (request.id req) _ El) as [r' [Er Hr]].
  rewrite Er, !removeRoutes_one, Hr.
  destruct (find_hasId_Some _ _ _ Et) as [_ ->].
  now destruct (existsb (hasId (request.id req)) (Spec.defaults s)).
Qed.

(** X13.  A GET or a HEAD changes nothing: the actor is in the same state after
    the pass, store and pending update, and the response is the listing
    for the root and the lookup for a route. *)
Theorem reads_change_nothing st req st' e :
  iteration st (case_request req) = Some (st', e) ->
  request.method req = "GET" \/ request.method req = "HEAD" ->
  st' = st
  /\ e = responded (if (request.id req =? "")%string
                    then getRoot (actor.self st) req
                    else get (actor.self st) req).
Proof.
  intros Hit Hm. apply iteration_request in Hit.
  destruct Hit as [Hr [He [Hself [Hc [Hr' Hslot]]]]].
  assert (E : handle (actor.self st) req =
              (actor.self st,
               if (request.id req =? "")%string
               then getRoot (actor.self st) req else get (actor.self st) req,
               updateMessage.zero)).
  { unfold handle, handleRoot, handleIndividual.
    destruct Hm as [-> | ->]; now destruct (request.id req =? "")%string. }
  rewrite E in *. simpl in *. split; [|exact He].
  apply actor_eq; congruence.
Qed.

(** X14.  [LoadUpdate] never returns an empty update: in every state the actor
    reaches, what it returns is either the missed update error alone or
    routes and deleted ids, at least one of them, without an error. *)
Theorem LoadUpdate_is_never_empty st st' routes deletedIDs err :
  reachable st ->
  LoadUpdate st = Some (st', (routes, deletedIDs, err)) ->
  (err = Some errMissedUpdate /\ routes = [] /\ deletedIDs = [])
  \/ (err = None /\ (routes <> [] \/ deletedIDs <> [])).
Proof.
  intros Hreach HL.
  assert (Inv : actor.updateRelay st = relay_update ->
                actor.updateToSend st = missed
                \/ (updateMessage.err (actor.updateToSend st) = None
                    /\ hasData (actor.updateToSend st) = true)).
  { clear HL. induction Hreach as [o | st c st1 e _ IH Hit | st st1 _ IH Hc].
    - discriminate.
    - destruct c.
      + unfold iteration in Hit. destruct (actor.returned st); [discriminate|].
        now inversion Hit; subst.
      + unfold iteration in Hit. destruct (actor.returned st); [discriminate|].
        destruct (actor.updateRelay st); [discriminate|].
        inversion Hit; subst. discriminate.
      + apply iteration_request in Hit.
        destruct Hit as [_ [_ [_ [_ [_ Hslot]]]]].
        destruct (hasData (snd (handle (actor.self st) req))) eqn:Hd.
        * destruct (actor.updateRelay st); inversion Hslot as [[Hu Ht]];
            intros _; [right | now left].
          rewrite Ht. split; [apply handle_update_err | exact Hd].
        * inversion Hslot as [[Hu Ht]]. rewrite Hu, Ht. exact IH.
      + unfold iteration in Hit. destruct (actor.returned st); [discriminate|].
        destruct (actor.stop_closed st); [|discriminate].
        now inversion Hit; subst.
    - unfold Close in Hc. destruct (actor.stop_closed st); [discriminate|].
      inversion Hc; subst. exact IH. }
  apply LoadUpdate_Some in HL. destruct HL as [_ [Hu [E _]]].
  inversion E; subst. destruct (Inv Hu) as [Hm | [He Hd]].
  - left. rewrite Hm. repeat split.
  - right. split; [exact He|]. unfold hasData in Hd. rewrite He in Hd.
    destruct (updateMessage.routes (actor.updateToSend st));
      destruct (updateMessage.deletedIDs (actor.updateToSend st));
      simpl in Hd; try discriminate; [right | left | left]; discriminate.
Qed.

(** X8.  The same DELETE on the root twice in a row: the second finds none of
    its candidates in the store, changes nothing and produces no
    update. *)
Theorem delete_from_root_twice_is_silent s req :
  request.id req = "" ->
  request.method req = "DELETE" ->
  let s1 := fst (fst (handle s req)) in
  handle s1 req = (s1, response.zero, updateMessage.zero).
Proof.
  intros Hid Hm s1. subst s1.
  rewrite !(handle_root _ _ Hid), !(handleRoot_delete _ _ Hm).
  unfold deleteFromRoot. cbn [fst snd setRoutes Spec.routes Spec.defaults].
  set (W := Spec.routes s). set (D := Spec.defaults s).
  set (cand := removeRoutes
                 (uniqueRoutes (idsToRoutes (request.ids req) W
                                  ++ request.routes req)) D).
  rewrite !remove_the_absent, remove_the_present.
  set (W' := removeRoutes W cand).
  set (cand' := removeRoutes
                  (uniqueRoutes (idsToRoutes (request.ids req) W'
                                   ++ request.routes req)) D).
  assert (Hnone : filter (fun c => existsb (hasId (eskip.Id c)) W') cand' = []).
  { assert (H : forall l, incl l cand' ->
                  filter (fun c => existsb (hasId (eskip.Id c)) W') l = []).
    { induction l as [|c l IH]; intros Hl; simpl; [reflexivity|].
      assert (Hc : existsb (hasId (eskip.Id c)) W' = false).
      { apply existsb_hasId_false. intros HW'.
        unfold W' in HW'. apply In_ids_removeRoutes in HW'.
        destruct HW' as [HW Hn]. apply Hn.
        assert (Hc' : In (eskip.Id c) (routesToIDs cand'))
          by (apply in_map, Hl; now left).
        unfold cand' in Hc'. unfold cand.
        rewrite In_ids_removeRoutes, In_ids_uniqueRoutes, routesToIDs_app,
          in_app_iff, In_ids_idsToRoutes in *.
        tauto. }
      rewrite Hc. apply IH. intros y Hy. apply Hl. now right. }
    apply H, incl_refl. }
  rewrite Hnone, removeRoutes_nil_r. reflexivity.
Qed.

(** X7.  [upsertRoutes] with the same routes twice in a row, on sets: the
    second changes nothing and reports nothing. *)
Theorem upsertRoutes_twice_is_silent to from :
  NoDup (routesToIDs to) ->
  NoDup (routesToIDs from) ->
  upsertRoutes (fst (upsertRoutes to from)) from =
  (fst (upsertRoutes to from), []).
Proof.
  intros Ht Hf.
  pose proof (NoDup_upsertRoutes to from Ht Hf) as Hn.
  assert (Hfind := fun i => find_upsertRoutes to from i Ht).
  set (next := fst (upsertRoutes to from)) in *.
  assert (Hins : removeRoutes from next = []).
  { rewrite removeRoutes_filter.
    assert (H : forall l, incl l from ->
                filter (fun ai => negb (existsb (hasId (eskip.Id ai)) next)) l
                = []).
    { induction l as [|x l IH]; intros Hl; simpl; [reflexivity|].
      assert (Hx : existsb (hasId (eskip.Id x)) next = true).
      { rewrite existsb_find, Hfind.
        rewrite (find_hasId_self x from Hf) by (apply Hl; now left).
        destruct (find (hasId (eskip.Id x)) to) as [t|]; [|reflexivity].
        now destruct (String_ x =? String_ t)%string. }
      rewrite Hx. simpl. apply IH. intros y Hy. apply Hl. now right. }
    apply H, incl_refl. }
  assert (Hch : changedRoutes next from = []).
  { destruct (changedRoutes next from) as [|c cs] eqn:E; [reflexivity|].
    exfalso.
    assert (Hc : In (eskip.Id c) (routesToIDs (changedRoutes next from)))
      by (rewrite E; now left).
    apply In_ids_changedRoutes in Hc.
    destruct Hc as [p [n [Hp [Hi [Hn' Hs]]]]].
    pose proof (find_hasId_self p next Hn Hp) as Hpn.
    rewrite Hi, Hfind, Hn' in Hpn.
    destruct (find (hasId (eskip.Id c)) to) as [t|].
    - destruct (String_ n =? String_ t)%string eqn:Est;
        inversion Hpn; subst; [congruence|].
      now rewrite String.eqb_refl in Hs.
    - inversion Hpn; subst. now rewrite String.eqb_refl in Hs. }
  unfold upsertRoutes at 1. rewrite Hins, Hch. simpl.
  now rewrite removeRoutes_nil_r, app_nil_r.
Qed.

End SetProperties.

(** * The filter *)

Section FilterProperties.

Context {library : Library} {route_Stringer : Stringer eskip.Route}.

(** ** Strings *)

Lemma Split_cons s sep : exists piece pieces, strings.Split s sep = piece :: pieces.
Proof.
  destruct s as [|c s]; simpl; [eauto|].
  destruct (Ascii.eqb c sep); [eauto|].
  destruct (strings.Split s sep); eauto.
Qed.

Lemma Split_without_sep s sep :
  ~ In sep (list_ascii_of_string s) -> strings.Split s sep = [s].
Proof.
  induction s as [|c s IH]; simpl; intros H; [reflexivity|].
  destruct (Ascii.eqb_spec c sep) as [->|_]; [exfalso; apply H; now left|].
  rewrite IH; [reflexivity|]. intros Hin. apply H. now right.
Qed.

Lemma Split_at_first_sep s sep rest :
  ~ In sep (list_ascii_of_string s) ->
  strings.Split (s ++ String sep rest) sep = s :: strings.Split rest sep.
Proof.
  induction s as [|c s IH]; simpl; intros H.
  - now rewrite Ascii.eqb_refl.
  - destruct (Ascii.eqb_spec c sep) as [->|_]; [exfalso; apply H; now left|].
    rewrite IH; [reflexivity|]. intros Hin. apply H. now right.
Qed.

Lemma Split_pieces s sep :
  String.concat (String sep EmptyString) (strings.Split s sep) = s
  /\ forall piece,
       In piece (strings.Split s sep) ->
       ~ In sep (list_ascii_of_string piece).
Proof.
  induction s as [|c s [IH1 IH2]]; simpl.
  - split; [reflexivity|]. intros piece [<-|[]] [].
  - destruct (Ascii.eqb_spec c sep) as [->|Hne].
    + split.
      * destruct (Split_cons s sep) as [p [ps E]]. rewrite E in *.
        simpl. simpl in IH1. now rewrite IH1.
      * intros piece [<-|H]; [intros [] | now apply IH2].
    + destruct (strings.Split s sep) as [|p ps]; simpl in *.
      * subst s. split; [reflexivity|]. intros piece [<-|[]] [H|[]]. congruence.
      * split.
        -- destruct ps; simpl in *; now rewrite IH1.
        -- intros piece [<-|H].
           ++ simpl. intros [E|Hin]; [congruence|].
              apply (IH2 p); [now left | exact Hin].
           ++ apply IH2. now right.
Qed.

Lemma Remove_chars s old :
  list_ascii_of_string (strings.Remove s old) =
  filter (fun c => negb (Ascii.eqb c old)) (list_ascii_of_string s).
Proof.
  induction s as [|c s IH]; simpl; [reflexivity|].
  destruct (Ascii.eqb c old); simpl; now rewrite IH.
Qed.

Lemma last_byte s : forall n c,
  String.length s = S n -> String.get n s = Some c ->
  s = (String.substring 0 n s ++ String c EmptyString)%string.
Proof.
  induction s as [|a s IH]; intros n c Hl Hg; [discriminate|].
  destruct n as [|n]; simpl in *.
  - destruct s; [|discriminate]. inversion Hg. reflexivity.
  - injection Hl as Hl. f_equal. now apply IH.
Qed.

Lemma length_append s1 s2 :
  String.length (s1 ++ s2)%string = (String.length s1 + String.length s2)%nat.
Proof. induction s1 as [|c s1 IH]; simpl; [reflexivity | now rewrite IH]. Qed.

(** X15.  [trimTrailingSlash] takes one slash off the end of a path, and only
    when something is left: the result is the path, or the path without
    its last byte, a slash; it is empty only for the empty path; a path
    of at most one byte is left alone, so the single slash stays; a path
    that ends in a slash loses it, and a path that ends in another byte is
    left alone. *)
Theorem trimTrailingSlash_takes_one_slash path :
  (trimTrailingSlash path = path
   \/ path = (trimTrailingSlash path ++ "/")%string)
  /\ (path <> "" -> trimTrailingSlash path <> "")
  /\ (String.length path <= 1 -> trimTrailingSlash path = path)%nat
  /\ (forall p, trimTrailingSlash (p ++ "/") = if (p =? "")%string then "/" else p)
  /\ (forall p c, c <> "/"%char ->
        trimTrailingSlash (p ++ String c "") = (p ++ String c "")%string).
Proof.
  assert (Hend : forall p c,
             String.get (String.length (p ++ String c "") - 1) (p ++ String c "")
             = Some c).
  { intros p c. rewrite length_append. simpl.
    replace (String.length p + 1 - 1)%nat with (0 + String.length p)%nat by lia.
    now rewrite <- append_correct2. }
  assert (Hsub : forall p c,
             String.substring 0 (String.length (p ++ String c "") - 1)
               (p ++ String c "") = p).
  { intros p c. rewrite length_append. simpl.
    replace (String.length p + 1 - 1)%nat with (String.length p) by lia.
    induction p as [|a p IH]; simpl; [reflexivity | now rewrite IH]. }
  split; [|split; [|split; [|split]]].
  - unfold trimTrailingSlash.
    destruct (1 <? String.length path)%nat eqn:El; simpl; [|now left].
    destruct (String.get (String.length path - 1) path) as [c|] eqn:Eg;
      [|now left].
    destruct (Ascii.eqb_spec c "/"%char) as [->|_]; [|now left].
    right. apply Nat.ltb_lt in El. apply last_byte; [lia | exact Eg].
  - intros Hne. unfold trimTrailingSlash.
    destruct (1 <? String.length path)%nat eqn:El; simpl; [|exact Hne].
    destruct (String.get (String.length path - 1) path) as [c|] eqn:Eg;
      [|exact Hne].
    destruct (Ascii.eqb c "/"%char); [|exact Hne].
    apply Nat.ltb_lt in El. destruct path as [|a [|b path]]; simpl in *; try lia.
    discriminate.
  - intros Hl. unfold trimTrailingSlash.
    destruct (Nat.ltb_spec 1 (String.length path)); [lia | reflexivity].
  - intros p. unfold trimTrailingSlash. rewrite Hend, Hsub, Ascii.eqb_refl.
    rewrite length_append. simpl. destruct p as [|a p]; simpl; [reflexivity|].
    destruct (Nat.ltb_spec 1 (S (String.length p + 1))); [reflexivity | lia].
  - intros p c Hc. unfold trimTrailingSlash. rewrite Hend.
    destruct (Ascii.eqb_spec c "/"%char); [contradiction|].
    now rewrite andb_false_r.
Qed.

(** ** Formats and content types *)

Lemma accept_step_flags (j e : bool) ai :
  accept_step (Z.lor (if j then responseFormatJSON else 0%Z)
                     (if e then responseFormatEskip else 0%Z)) ai =
  Z.lor (if j || (gdutil.Value ai =? "text/json")%string
         then responseFormatJSON else 0%Z)
        (if e || (gdutil.Value ai =? "application/eskip")%string
         then responseFormatEskip else 0%Z).
Proof.
  unfold accept_step.
  destruct (String.eqb_spec (gdutil.Value ai) "text/json") as [E|_].
  - rewrite E. simpl. rewrite !orb_true_r, orb_false_r.
    now destruct j, e.
  - destruct (gdutil.Value ai =? "application/eskip")%string;
      rewrite ?orb_true_r, ?orb_false_r; now destruct j, e.
Qed.

Lemma acceptedMime_flags a : forall (j e : bool),
  fold_left accept_step a
    (Z.lor (if j then responseFormatJSON else 0%Z)
           (if e then responseFormatEskip else 0%Z)) =
  Z.lor (if j || existsb (fun ai => (gdutil.Value ai =? "text/json")%string) a
         then responseFormatJSON else 0%Z)
        (if e || existsb
                   (fun ai => (gdutil.Value ai =? "application/eskip")%string) a
         then responseFormatEskip else 0%Z).
Proof.
  induction a as [|ai a IH]; intros j e; simpl.
  - now rewrite !orb_false_r.
  - now rewrite accept_step_flags, IH, !orb_assoc.
Qed.

(** X16.  The format of a response, from the values of the Accept header: JSON
    if one of them is text/json, otherwise eskip if one of them is
    application/eskip, otherwise text; [acceptedMime] never returns the
    format none, and for text [decideContentType] gives text/plain. *)
Theorem negotiated_format method a :
  let json := existsb (fun ai => (gdutil.Value ai =? "text/json")%string) a in
  let eskip :=
    existsb (fun ai => (gdutil.Value ai =? "application/eskip")%string) a in
  decideContentType (acceptedMime method a) =
    (if json then (responseFormatJSON, "text/json")
     else if eskip then (responseFormatEskip, "application/eskip")
          else (responseFormatText, "text/plain"))
  /\ acceptedMime method a <> responseFormatNone
  /\ acceptedMime method a =
       (if json || eskip
        then Z.lor (if json then responseFormatJSON else 0%Z)
                   (if eskip then responseFormatEskip else 0%Z)
        else responseFormatText).
Proof.
  intros json eskip. unfold acceptedMime.
  assert (H : fold_left accept_step a responseFormatNone =
              Z.lor (if json then responseFormatJSON else 0%Z)
                    (if eskip then responseFormatEskip else 0%Z))
    by exact (acceptedMime_flags a false false).
  rewrite H. destruct json, eskip; repeat split; discriminate.
Qed.

(** X17.  [getContentType] looks at the media type, what comes before the
    first semicolon, and accepts the empty one, text/plain and
    application/eskip; it returns the media type without the parameters,
    and for any other the unsupported media type error. *)
Theorem getContentType_reads_media_type method id mediaType :
  ~ In ";"%char (list_ascii_of_string mediaType) ->
  (forall params,
     getContentType method id (mediaType ++ String ";" params) =
     getContentType method id mediaType)
  /\ (mediaType = "" \/ mediaType = "text/plain"
      \/ mediaType = "application/eskip" ->
      getContentType method id mediaType = (mediaType, None))
  /\ (mediaType <> "" -> mediaType <> "text/plain" ->
      mediaType <> "application/eskip" ->
      getContentType method id mediaType = ("", Some errUnsupportedMediaType)).
Proof.
  intros Hm. unfold getContentType. split; [|split].
  - intros params. rewrite (Split_at_first_sep _ _ _ Hm), (Split_without_sep _ _ Hm).
    reflexivity.
  - rewrite (Split_without_sep _ _ Hm). simpl.
    intros [->|[->| ->]]; reflexivity.
  - rewrite (Split_without_sep _ _ Hm). simpl. intros H1 H2 H3.
    destruct (String.eqb_spec mediaType ""); [contradiction|].
    destruct (String.eqb_spec mediaType "text/plain"); [contradiction|].
    destruct (String.eqb_spec mediaType "application/eskip"); [contradiction|].
    reflexivity.
Qed.

(** ** Reading the body *)

Lemma parseContent_ids_DELETE method id contentType content r ids :
  parseContent method id contentType content = (r, ids, None) ->
  ids <> [] -> method = "DELETE" /\ r = [].
Proof.
  unfold parseContent. destruct content as [s|text]; [|discriminate].
  destruct (eskip_Parse s) as [r0 [text|]].
  - destruct (String.eqb_spec method "DELETE") as [Em|Em].
    + destruct (contentType =? "application/eskip")%string; simpl;
        [discriminate|]. intros H _. inversion H. now split.
    + rewrite orb_true_r. discriminate.
  - intros H Hne. inversion H; subst. contradiction.
Qed.

(** X18.  [parseContent] returns ids only for a DELETE whose body does not
    parse, under a content type other than application/eskip.  It then
    returns no routes, and the ids are the body without its spaces, cut at
    the commas: joined by commas they give that body back, and none of
    them has a comma or a space in it. *)
Theorem parseContent_ids method id contentType s r ids :
  parseContent method id contentType (inl s) = (r, ids, None) ->
  ids <> [] ->
  method = "DELETE"
  /\ contentType <> "application/eskip"
  /\ r = []
  /\ (exists text, snd (eskip_Parse s) = Some text)
  /\ ids = strings.Split (strings.Remove s " ") ","
  /\ String.concat "," ids = strings.Remove s " "
  /\ (forall i c,
        In i ids -> In c (list_ascii_of_string i) ->
        c <> ","%char /\ c <> " "%char).
Proof.
  unfold parseContent. destruct (eskip_Parse s) as [r0 [text|]] eqn:Ep.
  - destruct (String.eqb_spec contentType "application/eskip") as [Ec|Ec];
      simpl; [discriminate|].
    destruct (String.eqb_spec method "DELETE") as [Em|Em]; simpl; [|discriminate].
    intros H _. inversion H; subst. clear H.
    destruct (Split_pieces (strings.Remove s " ") ",") as [Hj Hp].
    repeat split; try assumption; eauto.
    + intros ->. apply (Hp i H). exact H0.
    + intros ->.
      assert (Hin : In " "%char (list_ascii_of_string (strings.Remove s " "))).
      { rewrite <- Hj. clear - H H0.
        induction (strings.Split (strings.Remove s " ") ",") as [|p ps IH];
          [destruct H|].
        assert (Happ : forall a b,
                   In " "%char (list_ascii_of_string a)
                   \/ In " "%char (list_ascii_of_string b) ->
                   In " "%char (list_ascii_of_string (a ++ b))).
        { induction a as [|x a IHa]; simpl; intros b [Ha|Hb]; auto.
          - destruct Ha.
          - destruct Ha as [Ha|Ha]; auto. }
        destruct H as [->|H].
        - destruct ps; [exact H0|]. apply Happ. now left.
        - destruct ps as [|q qs]; [destruct H|].
          apply Happ. right. apply (Happ ","%string). right. now apply IH. }
      rewrite Remove_chars in Hin. apply filter_In in Hin.
      destruct Hin as [_ Hin]. now rewrite Ascii.eqb_refl in Hin.
  - intros H Hne. inversion H; subst. contradiction.
Qed.

(** ** Before the request reaches the loop *)

Lemma canUseContent_valid method id :
  canUseContent method id = true -> validMethod method = true.
Proof.
  unfold canUseContent, validMethod, isMethod. simpl.
  destruct (method =? "OPTIONS")%string, (method =? "HEAD")%string,
    (method =? "GET")%string, (method =? "PUT")%string,
    (method =? "POST")%string, (method =? "PATCH")%string,
    (method =? "DELETE")%string; simpl; congruence.
Qed.

Lemma canUseContent_DELETE id :
  canUseContent "DELETE" id = true -> id = "".
Proof. unfold canUseContent. simpl. apply String.eqb_eq. Qed.

Lemma parseContent_err method id contentType content r i err :
  parseContent method id contentType content = (r, i, Some err) ->
  (exists text, err = own (errBadRequest text))
  \/ (exists text, err = foreign text /\ content = inr text).
Proof.
  unfold parseContent. destruct content as [s|text].
  - destruct (eskip_Parse s) as [r0 [text|]]; [|discriminate].
    destruct (_ || _); [|discriminate].
    intros H. inversion H. left. eauto.
  - intros H. inversion H. right. eauto.
Qed.

Lemma getContentType_err method id contentType ct err :
  getContentType method id contentType = (ct, Some err) ->
  err = errUnsupportedMediaType.
Proof.
  unfold getContentType. destruct (isMethod _ _); intros H; now inversion H.
Qed.

(** Takes [preprocessRequest] apart, one way out of the code per goal. *)
Ltac preprocess_cases H :=
  unfold preprocessRequest in H;
  repeat match type of H with
    | context [if ?b then _ else _] => destruct b eqn:?
    | context [match getContentType ?a ?b ?c with _ => _ end] =>
        let ct := fresh "ct" in
        let e := fresh "e" in
        destruct (getContentType a b c) as [ct [e|]] eqn:?
    | context [match parseContent ?a ?b ?c ?d with _ => _ end] =>
        let r := fresh "r" in
        let i := fresh "i" in
        let e := fresh "e" in
        destruct (parseContent a b c d) as [[r i] [e|]] eqn:?
    end;
  inversion H; subst; clear H; simpl in *.

Lemma preprocessRequest_method hreq req :
  preprocessRequest hreq = (req, None) ->
  validMethod (request.method req) = true
  /\ request.method req = http.Method hreq.
Proof.
  intros H. preprocess_cases H;
    match goal with
    | Hv : negb (validMethod _) = false |- _ => apply negb_false_iff in Hv
    end; now split.
Qed.

Lemma preprocessRequest_one_route hreq req :
  preprocessRequest hreq = (req, None) ->
  request.id req <> "" -> (List.length (request.routes req) <= 1)%nat.
Proof.
  intros H. preprocess_cases H; intros Hid;
    try match goal with
      | Hi : (http.RouteID hreq =? "")%string = true |- _ =>
          apply String.eqb_eq in Hi; contradiction
      | Hl : (1 <? _)%nat = false |- _ => apply Nat.ltb_ge in Hl; exact Hl
      end.
  simpl. lia.
Qed.

Lemma preprocessRequest_err_kinds hreq req err :
  preprocessRequest hreq = (req, Some err) ->
  err = own errMethodNotSupported
  \/ err = own errUnsupportedMediaType
  \/ (exists text, err = own (errBadRequest text))
  \/ (exists text, err = foreign text /\ http.Body hreq = inr text).
Proof.
  intros H. preprocess_cases H;
    try match goal with
      | Hg : getContentType _ _ _ = (_, Some _) |- _ =>
          apply getContentType_err in Hg; subst
      end;
    try match goal with
      | Hp : parseContent _ _ _ _ = (_, _, Some _) |- _ =>
          destruct (parseContent_err _ _ _ _ _ _ _ Hp)
            as [[text ->]|[text [-> Hb]]]
      end;
    eauto 7.
Qed.

(** X19.  A request that [preprocessRequest] lets through: its method is one
    of the seven and it is the method and the route id of the HTTP
    request; its format is not none; on the root every route has an id; on
    a route there is at most one route; it has routes or ids only where
    the method can use content; and it has ids only for a DELETE on the
    root, and then no routes. *)
Theorem preprocessRequest_lets_through hreq req :
  preprocessRequest hreq = (req, None) ->
  validMethod (request.method req) = true
  /\ request.method req = http.Method hreq
  /\ request.id req = http.RouteID hreq
  /\ request.accept req <> responseFormatNone
  /\ (request.id req = "" ->
      forall r, In r (request.routes req) -> eskip.Id r <> "")
  /\ (request.id req <> "" -> (List.length (request.routes req) <= 1)%nat)
  /\ (canUseContent (request.method req) (request.id req) = false ->
      request.routes req = [] /\ request.ids req = [])
  /\ (request.ids req <> [] ->
      request.method req = "DELETE" /\ request.id req = ""
      /\ request.routes req = []).
Proof.
  intros H.
  assert (Hacc : forall m a, acceptedMime m a <> responseFormatNone).
  { intros m a. unfold acceptedMime.
    destruct (Z.eqb_spec (fold_left accept_step a responseFormatNone)
                responseFormatNone); [discriminate | assumption]. }
  assert (Hids : forall m i ct r0 i0,
             canUseContent m i = true ->
             parseContent m i ct (http.Body hreq) = (r0, i0, None) ->
             i0 <> [] -> m = "DELETE" /\ i = "" /\ r0 = []).
  { intros m i ct r0 i0 Hc Hp Hne.
    destruct (parseContent_ids_DELETE _ _ _ _ _ _ Hp Hne) as [-> ->].
    repeat split. now apply canUseContent_DELETE. }
  preprocess_cases H;
    match goal with
    | Hv : negb (validMethod _) = false |- _ => apply negb_false_iff in Hv
    end;
    (split; [assumption|]); (split; [reflexivity|]); (split; [reflexivity|]);
    (split; [apply Hacc|]); split; [|split; [|split] | |split; [|split] | |split; [|split]].
  (* with content, on the root *)
  - intros _ x Hx E.
    match goal with
    | Hex : existsb _ _ = false |- _ =>
        rewrite <- Bool.not_true_iff_false in Hex; apply Hex
    end.
    apply existsb_exists. exists x. split; [exact Hx | now apply String.eqb_eq].
  - match goal with
    | Hi : (http.RouteID hreq =? "")%string = true |- _ =>
        apply String.eqb_eq in Hi; intros Hne; contradiction
    end.
  - congruence.
  - intros Hne.
    match goal with
    | Hc : canUseContent _ _ = true, Hp : parseContent _ _ _ _ = _ |- _ =>
        exact (Hids _ _ _ _ _ Hc Hp Hne)
    end.
  (* with content, on a route *)
  - match goal with
    | Hi : (http.RouteID hreq =? "")%string = false |- _ =>
        intros E; rewrite E in Hi; discriminate
    end.
  - intros _.
    match goal with
    | Hl : (1 <? _)%nat = false |- _ => apply Nat.ltb_ge in Hl; exact Hl
    end.
  - congruence.
  - intros Hne.
    match goal with
    | Hc : canUseContent _ _ = true, Hp : parseContent _ _ _ _ = _ |- _ =>
        exact (Hids _ _ _ _ _ Hc Hp Hne)
    end.
  (* without content *)
  - intros _ x [].
  - intros _. simpl. lia.
  - now split.
  - intros Hne. contradiction.
Qed.

(** X20.  A request that [preprocessRequest] turns away: for a method that is
    not one of the seven, with the method not supported error; otherwise
    only where the method can use content, with the unsupported media type
    error, with a bad request, or with the error of reading the body.  The
    request it returns along has no routes and no ids, and what
    [serveError] makes of the error is never a 404. *)
Theorem preprocessRequest_turns_away hreq req err :
  preprocessRequest hreq = (req, Some err) ->
  ((validMethod (http.Method hreq) = false /\ err = own errMethodNotSupported)
   \/ (validMethod (http.Method hreq) = true
       /\ canUseContent (http.Method hreq) (http.RouteID hreq) = true
       /\ (err = own errUnsupportedMediaType
           \/ (exists text, err = own (errBadRequest text))
           \/ (exists text, err = foreign text /\ http.Body hreq = inr text))))
  /\ request.routes req = [] /\ request.ids req = []
  /\ ~ In (WriteHeader http.StatusNotFound) (serveError err).
Proof.
  intros H. preprocess_cases H;
    try match goal with
      | Hv : negb (validMethod _) = false |- _ => apply negb_false_iff in Hv
      | Hv : negb (validMethod _) = true |- _ => apply negb_true_iff in Hv
      end;
    try match goal with
      | Hg : getContentType _ _ _ = (_, Some _) |- _ =>
          apply getContentType_err in Hg; subst
      end.
  all: try match goal with
         | Hp : parseContent _ _ _ _ = (_, _, Some _) |- _ =>
             destruct (parseContent_err _ _ _ _ _ _ _ Hp)
               as [[text ->]|[text [-> Hb]]]
         end.
  all: split;
    [ first [ now left
            | right; split; [assumption|]; split; [assumption|];
              first [ now left
                    | solve [right; left; eauto]
                    | solve [right; right; eauto] ] ]
    | repeat split; simpl; intuition discriminate ].
Qed.

(** ** Serving *)

Lemma handle_read s req :
  isMethod (request.method req) ["HEAD"; "GET"] = true ->
  handle s req =
  (s,
   if (request.id req =? "")%string then getRoot s req else get s req,
   updateMessage.zero).
Proof.
  intros Hm. unfold handle, handleRoot, handleIndividual. rewrite Hm.
  now destruct (request.id req =? "")%string.
Qed.

(** A response with content is the response to a GET or a HEAD, carries
    no error and, for a route, carries that one route. *)
Lemma handle_withContent s req :
  response.withContent (snd (fst (handle s req))) = true ->
  isMethod (request.method req) ["HEAD"; "GET"] = true
  /\ response.err (snd (fst (handle s req))) = None
  /\ (request.id req <> "" ->
      exists r, response.routes (snd (fst (handle s req))) = [r]).
Proof.
  destruct (isMethod (request.method req) ["HEAD"; "GET"]) eqn:Hm.
  - rewrite (handle_read s req Hm). simpl.
    destruct (String.eqb_spec (request.id req) "") as [E|E]; simpl.
    + intros _. repeat split. intros H. contradiction.
    + rewrite get_find.
      destruct (find _ _) as [r|]; simpl; [|discriminate].
      intros _. repeat split. intros _. now exists r.
  - unfold handle, handleRoot, handleIndividual, putRoot, patchInRoot,
      deleteFromRoot, put, patch, del, replaceRoutes. rewrite Hm.
    repeat match goal with
      | |- context [if ?b then _ else _] => destruct b eqn:?
      | |- context [upsertRoutes ?a ?b] => destruct (upsertRoutes a b) eqn:?
      | |- context [let '(_, _) := ?p in _] => destruct p eqn:?
      end; simpl; discriminate.
Qed.

Lemma iteration_request_same st req st' e :
  iteration st (case_request req) = Some (st', e) ->
  fst (fst (handle (actor.self st) req)) = actor.self st ->
  snd (handle (actor.self st) req) = updateMessage.zero ->
  st' = st.
Proof.
  intros Hit Hs Hu. apply iteration_request in Hit.
  destruct Hit as [Hr [_ [Hself [Hc [Hr' Hslot]]]]].
  rewrite Hu in Hslot. simpl in Hslot. apply actor_eq; congruence.
Qed.

Lemma writeResponse_wrote req rsp :
  (request.id req <> "" -> exists r, response.routes rsp = [r]) ->
  exists w,
    writeResponse req rsp = wrote w
    /\ ~ In (WriteHeader http.StatusInternalServerError) w
    /\ (forall t e, ~ In (log_Error t e) w)
    /\ (request.method req = "HEAD" -> forall p, ~ In (Write p) w).
Proof.
  intros Hr. unfold writeResponse, writeEskip.
  destruct (decideContentType (request.accept req)) as [f ct].
  destruct (f =? responseFormatJSON)%Z.
  { eexists. split; [reflexivity|]. simpl.
    repeat split; intros; intuition discriminate. }
  destruct (String.eqb_spec (request.method req) "HEAD") as [Eh|Eh].
  { eexists. split; [reflexivity|]. simpl.
    repeat split; intros; intuition discriminate. }
  destruct (String.eqb_spec (request.id req) "") as [E|E].
  - eexists. split; [reflexivity|]. simpl.
    repeat split; intros; intuition (try discriminate; try contradiction).
  - destruct (Hr E) as [r ->].
    eexists. split; [reflexivity|]. simpl.
    repeat split; intros; intuition (try discriminate; try contradiction).
Qed.

Lemma write_methods m :
  validMethod m = true ->
  (m =? "OPTIONS")%string = false ->
  isMethod m ["HEAD"; "GET"] = false ->
  isMethod m ["PUT"; "POST"; "PATCH"; "DELETE"] = true.
Proof.
  unfold validMethod, isMethod. simpl.
  destruct (m =? "OPTIONS")%string, (m =? "HEAD")%string,
    (m =? "GET")%string, (m =? "PUT")%string, (m =? "POST")%string,
    (m =? "PATCH")%string, (m =? "DELETE")%string; simpl; congruence.
Qed.

(** X21.  When the loop takes the request that [ServeHTTP] sends it,
    [ServeHTTP] returns, in the state the loop left: it does not panic, so
    [rsp.routes[0]] is there whenever [writeEskip] reads it.  That state
    is the state before, unless the method is PUT, POST, PATCH or DELETE
    and nothing at all was written, neither a status nor a body.  Whether
    the loop takes the request is up to its [select]: with [s.stop] closed
    it may return instead. *)
Theorem served_request_is_answered st hreq req st1 e :
  preprocessRequest hreq = (req, None) ->
  iteration st (case_request req) = Some (st1, e) ->
  (exists w,
     ServeHTTP st hreq = replied st1 w
     /\ (st1 = st
         \/ (w = []
             /\ isMethod (http.Method hreq) ["PUT"; "POST"; "PATCH"; "DELETE"]
                = true)))
  /\ (forall st' w, ServeHTTP st hreq <> panicked st' w).
Proof.
  intros Hp Hit.
  assert (H : exists w,
             ServeHTTP st hreq = replied st1 w
             /\ (st1 = st
                 \/ (w = []
                     /\ isMethod (http.Method hreq)
                          ["PUT"; "POST"; "PATCH"; "DELETE"] = true))).
  { unfold ServeHTTP. rewrite Hp.
    destruct (preprocessRequest_method _ _ Hp) as [Hv Hm].
    pose proof (iteration_request _ _ _ _ Hit) as [_ [He _]].
    destruct (request.method req =? "OPTIONS")%string eqn:Ho.
    { assert (Hsame : st1 = st).
      { apply String.eqb_eq in Ho.
        apply (iteration_request_same st req st1 _ Hit);
          unfold handle, handleRoot, handleIndividual; rewrite Ho;
          now destruct (request.id req =? "")%string. }
      subst st1. eexists. split; [reflexivity | now left]. }
    rewrite Hit, He.
    set (rsp := snd (fst (handle (actor.self st) req))) in *.
    destruct (response.withContent rsp) eqn:Hc.
    - destruct (handle_withContent _ _ Hc) as [Hread [Herr Hr]].
      fold rsp in Herr, Hr. rewrite Herr. simpl.
      destruct (writeResponse_wrote req rsp Hr) as [w [-> _]].
      exists w. split; [reflexivity|]. left.
      apply (iteration_request_same st req st1 _ Hit);
        now rewrite (handle_read _ _ Hread).
    - destruct (response.err rsp) as [err|] eqn:Herr.
      + exists (serveError (own err)). split; [reflexivity|]. left.
        destruct (handle_err (actor.self st) req) as [Hs [Hz _]];
          [fold rsp; congruence|].
        now apply (iteration_request_same st req st1 _ Hit).
      + exists []. split; [reflexivity|].
        destruct (isMethod (request.method req) ["HEAD"; "GET"]) eqn:Hread.
        * left. apply (iteration_request_same st req st1 _ Hit);
            now rewrite (handle_read _ _ Hread).
        * right. split; [reflexivity|]. rewrite <- Hm.
          now apply write_methods. }
  split; [exact H|].
  destruct H as [w [E _]]. intros st' w'. rewrite E. discriminate.
Qed.

(** X22.  Once the loop has returned, [ServeHTTP] still answers what the
    filter answers by itself, OPTIONS and the requests that
    [preprocessRequest] turns away; on any other request it waits for
    ever.  It never panics. *)
Theorem ServeHTTP_after_stop st hreq :
  actor.returned st = true ->
  (ServeHTTP st hreq = waiting
   /\ snd (preprocessRequest hreq) = None
   /\ http.Method hreq <> "OPTIONS")
  \/ (exists w,
        ServeHTTP st hreq = replied st w
        /\ (snd (preprocessRequest hreq) <> None
            \/ http.Method hreq = "OPTIONS")).
Proof.
  intros Hret. unfold ServeHTTP.
  destruct (preprocessRequest hreq) as [req [err|]] eqn:Hp.
  - right. eexists. split; [reflexivity|]. left. discriminate.
  - destruct (preprocessRequest_method _ _ Hp) as [_ Hm].
    destruct (String.eqb_spec (request.method req) "OPTIONS") as [Ho|Ho].
    + right. eexists. split; [reflexivity|]. right. congruence.
    + left. unfold iteration. rewrite Hret. repeat split. congruence.
Qed.

(** X23.  [ServeHTTP] writes the status 500, or logs an error, only when the
    body of the request could not be read. *)
Theorem server_error_only_for_unreadable_body st hreq st' w :
  ServeHTTP st hreq = replied st' w ->
  In (WriteHeader http.StatusInternalServerError) w
  \/ (exists t e, In (log_Error t e) w) ->
  exists text, http.Body hreq = inr text.
Proof.
  unfold ServeHTTP.
  destruct (preprocessRequest hreq) as [req [err|]] eqn:Hp.
  - intros H Hw. inversion H; subst. clear H.
    destruct (preprocessRequest_err_kinds _ _ _ Hp)
      as [->|[->|[[text ->]|[text [-> Hb]]]]]; [| | |eauto];
      simpl in Hw; exfalso; destruct Hw as [Hw|[t [e Hw]]];
      simpl in Hw; intuition discriminate.
  - destruct (request.method req =? "OPTIONS")%string.
    { intros H Hw. inversion H; subst. exfalso.
      destruct Hw as [Hw|[t [e Hw]]]; simpl in Hw; intuition discriminate. }
    destruct (iteration st (case_request req)) as [[st1 e]|] eqn:Hit;
      [|discriminate].
    pose proof (iteration_request _ _ _ _ Hit) as [_ [-> _]].
    set (rsp := snd (fst (handle (actor.self st) req))) in *.
    assert (Herr : forall werr,
               werr = match response.err rsp with
                      | Some err => serveError (own err)
                      | None => []
                      end ->
               ~ In (WriteHeader http.StatusInternalServerError) werr
               /\ forall t e, ~ In (log_Error t e) werr).
    { intros werr ->. destruct (response.err rsp) as [e|] eqn:He.
      - destruct (handle_err (actor.self st) req) as [_ [_ [Hk|Hk]]];
          [fold rsp; congruence | | ]; fold rsp in Hk; rewrite He in Hk;
          inversion Hk; subst; simpl; split; intros; intuition discriminate.
      - simpl. split; intros; tauto. }
    destruct (Herr _ eq_refl) as [H500 Hlog].
    destruct (response.withContent rsp) eqn:Hc.
    + destruct (handle_withContent _ _ Hc) as [_ [_ Hr]]. fold rsp in Hr.
      destruct (writeResponse_wrote req rsp Hr) as [w' [-> [H500' [Hlog' _]]]].
      intros H Hw. inversion H; subst. exfalso.
      destruct Hw as [Hw|[t [e Hw]]]; apply in_app_or in Hw;
        destruct Hw as [Hw|Hw];
        [ now apply H500 | now apply H500'
        | now apply (Hlog t e) | now apply (Hlog' t e) ].
    + intros H Hw. inversion H; subst. exfalso.
      destruct Hw as [Hw|[t [e Hw]]];
        [now apply H500 | now apply (Hlog t e)].
Qed.

(** X24.  A HEAD request changes nothing and is answered without a body: no
    call of [Write] is made, whatever the route id, the Accept header and
    the state of the actor. *)
Theorem HEAD_has_no_body st hreq st' w :
  http.Method hreq = "HEAD" ->
  ServeHTTP st hreq = replied st' w ->
  st' = st /\ forall p, ~ In (Write p) w.
Proof.
  intros Hm. unfold ServeHTTP.
  assert (Hp : exists req,
             preprocessRequest hreq = (req, None)
             /\ request.method req = "HEAD").
  { unfold preprocessRequest. rewrite Hm. simpl. eexists. split; reflexivity. }
  destruct Hp as [req [-> Hreq]]. rewrite Hreq. simpl.
  destruct (iteration st (case_request req)) as [[st1 e]|] eqn:Hit;
    [|discriminate].
  assert (Hread : isMethod (request.method req) ["HEAD"; "GET"] = true)
    by now rewrite Hreq.
  assert (Hst : st1 = st).
  { apply (iteration_request_same st req st1 _ Hit);
      now rewrite (handle_read _ _ Hread). }
  pose proof (iteration_request _ _ _ _ Hit) as [_ [-> _]].
  set (rsp := snd (fst (handle (actor.self st) req))) in *.
  assert (Herr : forall p,
             ~ In (Write p) match response.err rsp with
                            | Some err => serveError (own err)
                            | None => []
                            end).
  { intros p. unfold rsp. rewrite (handle_read _ _ Hread). simpl.
    destruct (request.id req =? "")%string; simpl; [tauto|].
    rewrite get_find. destruct (find _ _); simpl; intuition discriminate. }
  destruct (response.withContent rsp) eqn:Hc.
  - destruct (handle_withContent _ _ Hc) as [_ [_ Hr]]. fold rsp in Hr.
    destruct (writeResponse_wrote req rsp Hr) as [w' [-> [_ [_ Hw']]]].
    intros H. inversion H; subst. split; [reflexivity|].
    intros p Hin. apply in_app_or in Hin. destruct Hin as [Hin|Hin].
    + now apply (Herr p).
    + now apply (Hw' Hreq p).
  - intros H. inversion H; subst. split; [reflexivity|]. exact Herr.
Qed.

(** X25.  An individual PUT or POST that [preprocessRequest] lets through is
    answered by the store with the bad request of [put] exactly when its
    body held no route, since more than one route never gets that far;
    with a route it is answered without an error. *)
Theorem served_put_needs_a_route hreq req s :
  preprocessRequest hreq = (req, None) ->
  request.id req <> "" ->
  request.method req = "PUT" \/ request.method req = "POST" ->
  (response.err (snd (fst (handle s req))) =
     Some (errBadRequest "exactly one route expected")
   <-> request.routes req = [])
  /\ (request.routes req <> [] ->
      response.err (snd (fst (handle s req))) = None).
Proof.
  intros Hp Hid Hm.
  pose proof (preprocessRequest_one_route _ _ Hp Hid) as Hl.
  rewrite (handle_individual _ _ Hid), (handleIndividual_put _ _ Hm).
  unfold put. destruct (request.routes req) as [|r [|r' rest]] eqn:Er;
    [| |simpl in Hl; lia].
  - simpl. split; [split; reflexivity | congruence].
  - cbn [List.length Nat.eqb negb].
    destruct (List.length (removeRoutes _ _) =? 0)%nat.
    + simpl. split; [split; discriminate | reflexivity].
    + destruct (upsertRoutes _ _). simpl.
      split; [split; discriminate | reflexivity].
Qed.

End FilterProperties.

(** * The further theorems at work on the sample data *)

Section MoreWitnesses.

#[local] Existing Instance Sample.print_route.
#[local] Existing Instance FilterSample.library.

Import Sample.

Lemma NoDup_foo_bar : NoDup (routesToIDs [foo; bar]).
Proof. repeat constructor; simpl; intuition discriminate. Qed.

Lemma reachable_pending : reachable pending.
Proof.
  apply (reachable_iteration idle (case_request (on_root "PUT" [foo] []))
           pending (responded response.zero)); [apply reachable_New | reflexivity].
Qed.

Lemma ids_resolve_witness :
  NoDup (routesToIDs [foo; bar])
  /\ idsToRoutes (routesToIDs [foo; bar]) [foo; bar] = [foo; bar].
Proof.
  assert (H1 : NoDup (routesToIDs [foo; bar])) by exact NoDup_foo_bar.
  split; [exact H1|].
  exact (proj1 (ids_resolve_to_their_routes [foo; bar] H1)).
Defined.

Lemma replace_root_twice_witness :
  request.id (on_root "PUT" [foo1; baz] []) = ""
  /\ (request.method (on_root "PUT" [foo1; baz] []) = "PUT"
      \/ request.method (on_root "PUT" [foo1; baz] []) = "POST")
  /\ handle (fst (fst (handle store (on_root "PUT" [foo1; baz] []))))
       (on_root "PUT" [foo1; baz] []) =
     (fst (fst (handle store (on_root "PUT" [foo1; baz] []))),
      response.zero, updateMessage.zero).
Proof.
  assert (H1 : request.id (on_root "PUT" [foo1; baz] []) = "") by reflexivity.
  assert (H2 : request.method (on_root "PUT" [foo1; baz] []) = "PUT"
               \/ request.method (on_root "PUT" [foo1; baz] []) = "POST")
    by (left; reflexivity).
  split; [exact H1|]. split; [exact H2|].
  exact (replace_root_twice_is_silent store _ H1 H2).
Defined.

Lemma upsertRoutes_lookup_witness :
  NoDup (routesToIDs [foo; bar])
  /\ forall i,
       In i (routesToIDs (fst (upsertRoutes [foo; bar] [foo1; baz]))) <->
       In i (routesToIDs [foo; bar]) \/ In i (routesToIDs [foo1; baz]).
Proof.
  assert (H1 : NoDup (routesToIDs [foo; bar])) by exact NoDup_foo_bar.
  split; [exact H1|].
  exact (proj1 (proj2 (proj2 (upsertRoutes_lookup [foo; bar] [foo1; baz] H1)))).
Defined.

Lemma reachable_stores_hold_sets_witness :
  reachable pending
  /\ NoDup (routesToIDs
              (Spec.defaults (actor.self pending)
                 ++ Spec.routes (actor.self pending))).
Proof.
  assert (H1 : reachable pending) by exact reachable_pending.
  split; [exact H1|].
  exact (proj1 (proj2 (proj2 (proj2 (reachable_stores_hold_sets pending H1))))).
Defined.

Lemma put_then_get_witness :
  reachable pending
  /\ request.id (on_route "baz" "PUT" [foo]) <> ""
  /\ (request.method (on_route "baz" "PUT" [foo]) = "PUT"
      \/ request.method (on_route "baz" "PUT" [foo]) = "POST")
  /\ request.routes (on_route "baz" "PUT" [foo]) = [foo]
  /\ ~ In (request.id (on_route "baz" "PUT" [foo]))
         (routesToIDs (Spec.defaults (actor.self pending)))
  /\ response.err
       (snd (fst (handle (actor.self pending) (on_route "baz" "PUT" [foo]))))
     = None.
Proof.
  assert (H1 : reachable pending) by exact reachable_pending.
  assert (H2 : request.id (on_route "baz" "PUT" [foo]) <> "") by discriminate.
  assert (H3 : request.method (on_route "baz" "PUT" [foo]) = "PUT"
               \/ request.method (on_route "baz" "PUT" [foo]) = "POST")
    by (left; reflexivity).
  assert (H4 : request.routes (on_route "baz" "PUT" [foo]) = [foo])
    by reflexivity.
  assert (H5 : ~ In (request.id (on_route "baz" "PUT" [foo]))
                 (routesToIDs (Spec.defaults (actor.self pending))))
    by (simpl; intuition discriminate).
  split; [exact H1|]. split; [exact H2|]. split; [exact H3|].
  split; [exact H4|]. split; [exact H5|].
  exact (proj1 (put_then_get pending _ foo H1 H2 H3 H4 H5)).
Defined.

Lemma delete_then_get_witness :
  reachable pending
  /\ request.id (on_route "foo" "DELETE" []) <> ""
  /\ request.method (on_route "foo" "DELETE" []) = "DELETE"
  /\ In (request.id (on_route "foo" "DELETE" []))
        (routesToIDs (Spec.routes (actor.self pending)))
  /\ snd (handle (actor.self pending) (on_route "foo" "DELETE" [])) =
     {| updateMessage.routes := [];
        updateMessage.deletedIDs := ["foo"];
        updateMessage.err := None |}.
Proof.
  assert (H1 : reachable pending) by exact reachable_pending.
  assert (H2 : request.id (on_route "foo" "DELETE" []) <> "") by discriminate.
  assert (H3 : request.method (on_route "foo" "DELETE" []) = "DELETE")
    by reflexivity.
  assert (H4 : In (request.id (on_route "foo" "DELETE" []))
                 (routesToIDs (Spec.routes (actor.self pending))))
    by (left; reflexivity).
  split; [exact H1|]. split; [exact H2|]. split; [exact H3|].
  split; [exact H4|].
  exact (proj1 (proj2 (delete_then_get pending _ H1 H2 H3 H4))).
Defined.

Lemma patch_is_put_witness :
  In (request.id (on_route "foo" "PATCH" [bar]))
     (routesToIDs (Spec.defaults store ++ Spec.routes store))
  /\ patch store (on_route "foo" "PATCH" [bar]) =
     put store (on_route "foo" "PATCH" [bar]).
Proof.
  assert (H1 : In (request.id (on_route "foo" "PATCH" [bar]))
                 (routesToIDs (Spec.defaults store ++ Spec.routes store)))
    by (right; right; left; reflexivity).
  split; [exact H1|].
  exact (patch_is_put_on_known_ids store _ H1).
Defined.

Lemma reads_change_nothing_witness :
  iteration pending (case_request (on_root "GET" [] [])) =
    Some (pending,
          responded (getRoot (actor.self pending) (on_root "GET" [] [])))
  /\ (request.method (on_root "GET" [] []) = "GET"
      \/ request.method (on_root "GET" [] []) = "HEAD")
  /\ pending = pending.
Proof.
  assert (H1 : iteration pending (case_request (on_root "GET" [] [])) =
               Some (pending,
                     responded (getRoot (actor.self pending)
                                  (on_root "GET" [] []))))
    by reflexivity.
  assert (H2 : request.method (on_root "GET" [] []) = "GET"
               \/ request.method (on_root "GET" [] []) = "HEAD")
    by (left; reflexivity).
  split; [exact H1|]. split; [exact H2|].
  exact (proj1 (reads_change_nothing _ _ _ _ H1 H2)).
Defined.

Lemma LoadUpdate_is_never_empty_witness :
  reachable pending
  /\ LoadUpdate pending =
       Some (after pending case_updateRelay, ([foo], [], None))
  /\ ((None = Some errMissedUpdate /\ [foo] = [] /\ @nil string = [])
      \/ (@None error = None /\ ([foo] <> [] \/ @nil string <> []))).
Proof.
  assert (H1 : reachable pending) by exact reachable_pending.
  assert (H2 : LoadUpdate pending =
               Some (after pending case_updateRelay, ([foo], [], None)))
    by reflexivity.
  split; [exact H1|]. split; [exact H2|].
  exact (LoadUpdate_is_never_empty _ _ _ _ _ H1 H2).
Defined.

Lemma getContentType_witness :
  ~ In ";"%char (list_ascii_of_string "text/plain")
  /\ getContentType "PUT" "" "text/plain;charset=utf-8" =
     getContentType "PUT" "" "text/plain".
Proof.
  assert (H1 : ~ In ";"%char (list_ascii_of_string "text/plain"))
    by (simpl; intuition discriminate).
  split; [exact H1|].
  exact (proj1 (getContentType_reads_media_type "PUT" "" "text/plain" H1)
           "charset=utf-8").
Defined.

Lemma parseContent_ids_witness :
  parseContent "DELETE" "" "text/plain" (inl "foo, bar") =
    ([], ["foo"; "bar"], None)
  /\ ["foo"; "bar"] <> []
  /\ String.concat "," ["foo"; "bar"] = strings.Remove "foo, bar" " ".
Proof.
  assert (H1 : parseContent "DELETE" "" "text/plain" (inl "foo, bar") =
               ([], ["foo"; "bar"], None)) by reflexivity.
  assert (H2 : ["foo"; "bar"] <> []) by discriminate.
  split; [exact H1|]. split; [exact H2|].
  exact (proj1 (proj2 (proj2 (proj2 (proj2 (proj2
           (parseContent_ids _ _ _ _ _ _ H1 H2))))))).
Defined.

Lemma preprocessRequest_lets_through_witness :
  preprocessRequest
    (FilterSample.request "DELETE" "" "text/plain" (inl "foo, bar")) =
    ({| request.id := "";
        request.method := "DELETE";
        request.routes := [];
        request.ids := ["foo"; "bar"];
        request.accept := responseFormatText;
        request.pretty := true |}, None)
  /\ validMethod "DELETE" = true.
Proof.
  assert (H1 : preprocessRequest
                 (FilterSample.request "DELETE" "" "text/plain"
                    (inl "foo, bar")) =
               ({| request.id := "";
                   request.method := "DELETE";
                   request.routes := [];
                   request.ids := ["foo"; "bar"];
                   request.accept := responseFormatText;
                   request.pretty := true |}, None)) by reflexivity.
  split; [exact H1|].
  exact (proj1 (preprocessRequest_lets_through _ _ H1)).
Defined.

Lemma preprocessRequest_turns_away_witness :
  preprocessRequest
    (FilterSample.request "PUT" "foo" "application/json" (inl "foo")) =
    ({| request.id := "foo";
        request.method := "PUT";
        request.routes := [];
        request.ids := [];
        request.accept := responseFormatText;
        request.pretty := true |}, Some (own errUnsupportedMediaType))
  /\ ~ In (WriteHeader http.StatusNotFound)
         (serveError (own errUnsupportedMediaType)).
Proof.
  assert (H1 : preprocessRequest
                 (FilterSample.request "PUT" "foo" "application/json"
                    (inl "foo")) =
               ({| request.id := "foo";
                   request.method := "PUT";
                   request.routes := [];
                   request.ids := [];
                   request.accept := responseFormatText;
                   request.pretty := true |},
                Some (own errUnsupportedMediaType))) by reflexivity.
  split; [exact H1|].
  exact (proj2 (proj2 (proj2 (preprocessRequest_turns_away _ _ _ H1)))).
Defined.

(** A GET on a route of the store, and a PUT on the root: the first
    reads [rsp.routes[0]], the second changes the state and writes
    nothing. *)
Lemma served_request_is_answered_witness :
  preprocessRequest (FilterSample.request "GET" "foo" "" (inl "")) =
    (on_route "foo" "GET" [], None)
  /\ iteration pending (case_request (on_route "foo" "GET" [])) =
       Some (pending,
             responded (get (actor.self pending) (on_route "foo" "GET" [])))
  /\ (exists w,
        ServeHTTP pending (FilterSample.request "GET" "foo" "" (inl "")) =
          replied pending w
        /\ (pending = pending
            \/ (w = []
                /\ isMethod "GET" ["PUT"; "POST"; "PATCH"; "DELETE"] = true)))
  /\ preprocessRequest (FilterSample.request "PUT" "" "text/plain" (inl "foo")) =
       (on_root "PUT" [foo] [], None)
  /\ iteration idle (case_request (on_root "PUT" [foo] [])) =
       Some (pending, responded response.zero)
  /\ (exists w,
        ServeHTTP idle (FilterSample.request "PUT" "" "text/plain" (inl "foo")) =
          replied pending w
        /\ (pending = idle
            \/ (w = []
                /\ isMethod "PUT" ["PUT"; "POST"; "PATCH"; "DELETE"] = true))).
Proof.
  assert (H1 : preprocessRequest
                 (FilterSample.request "GET" "foo" "" (inl "")) =
               (on_route "foo" "GET" [], None)) by reflexivity.
  assert (H2 : iteration pending (case_request (on_route "foo" "GET" [])) =
               Some (pending,
                     responded (get (actor.self pending)
                                  (on_route "foo" "GET" []))))
    by reflexivity.
  assert (H3 : preprocessRequest
                 (FilterSample.request "PUT" "" "text/plain" (inl "foo")) =
               (on_root "PUT" [foo] [], None)) by reflexivity.
  assert (H4 : iteration idle (case_request (on_root "PUT" [foo] [])) =
               Some (pending, responded response.zero)) by reflexivity.
  split; [exact H1|]. split; [exact H2|].
  split; [exact (proj1 (served_request_is_answered _ _ _ _ _ H1 H2))|].
  split; [exact H3|]. split; [exact H4|].
  exact (proj1 (served_request_is_answered _ _ _ _ _ H3 H4)).
Defined.

Lemma ServeHTTP_after_stop_witness :
  actor.returned halted = true
  /\ ((ServeHTTP halted (FilterSample.request "GET" "" "" (inl "")) = waiting
       /\ snd (preprocessRequest (FilterSample.request "GET" "" "" (inl "")))
          = None
       /\ "GET" <> "OPTIONS")
      \/ (exists w,
            ServeHTTP halted (FilterSample.request "GET" "" "" (inl "")) =
              replied halted w
            /\ (snd (preprocessRequest
                       (FilterSample.request "GET" "" "" (inl ""))) <> None
                \/ "GET" = "OPTIONS"))).
Proof.
  assert (H1 : actor.returned halted = true) by reflexivity.
  split; [exact H1|].
  exact (ServeHTTP_after_stop halted
           (FilterSample.request "GET" "" "" (inl "")) H1).
Defined.

Lemma server_error_witness :
  ServeHTTP idle (FilterSample.request "PUT" "" "text/plain" (inr "EOF")) =
    replied idle [log_Error "server error" (foreign "EOF");
                  WriteHeader http.StatusInternalServerError]
  /\ (In (WriteHeader http.StatusInternalServerError)
        [log_Error "server error" (foreign "EOF");
         WriteHeader http.StatusInternalServerError]
      \/ (exists t e,
            In (log_Error t e)
              [log_Error "server error" (foreign "EOF");
               WriteHeader http.StatusInternalServerError]))
  /\ exists text,
       http.Body (FilterSample.request "PUT" "" "text/plain" (inr "EOF")) =
       inr text.
Proof.
  assert (H1 : ServeHTTP idle
                 (FilterSample.request "PUT" "" "text/plain" (inr "EOF")) =
               replied idle [log_Error "server error" (foreign "EOF");
                             WriteHeader http.StatusInternalServerError])
    by reflexivity.
  assert (H2 : In (WriteHeader http.StatusInternalServerError)
                 [log_Error "server error" (foreign "EOF");
                  WriteHeader http.StatusInternalServerError]
               \/ (exists t e,
                     In (log_Error t e)
                       [log_Error "server error" (foreign "EOF");
                        WriteHeader http.StatusInternalServerError]))
    by (left; right; left; reflexivity).
  split; [exact H1|]. split; [exact H2|].
  exact (server_error_only_for_unreadable_body _ _ _ _ H1 H2).
Defined.

Lemma HEAD_has_no_body_witness :
  http.Method (FilterSample.request "HEAD" "" "" (inl "")) = "HEAD"
  /\ ServeHTTP pending (FilterSample.request "HEAD" "" "" (inl "")) =
       replied pending [Header_Set "Content-Type" "text/plain"]
  /\ forall p, ~ In (Write p) [Header_Set "Content-Type" "text/plain"].
Proof.
  assert (H1 : http.Method (FilterSample.request "HEAD" "" "" (inl "")) = "HEAD")
    by reflexivity.
  assert (H2 : ServeHTTP pending (FilterSample.request "HEAD" "" "" (inl "")) =
               replied pending [Header_Set "Content-Type" "text/plain"])
    by reflexivity.
  split; [exact H1|]. split; [exact H2|].
  exact (proj2 (HEAD_has_no_body _ _ _ _ H1 H2)).
Defined.

Lemma served_put_witness :
  preprocessRequest
    (FilterSample.request "PUT" "baz" "text/plain" (inl "foo")) =
    (on_route "baz" "PUT" [foo], None)
  /\ request.id (on_route "baz" "PUT" [foo]) <> ""
  /\ (request.method (on_route "baz" "PUT" [foo]) = "PUT"
      \/ request.method (on_route "baz" "PUT" [foo]) = "POST")
  /\ (request.routes (on_route "baz" "PUT" [foo]) <> [] ->
      response.err (snd (fst (handle store (on_route "baz" "PUT" [foo]))))
      = None).
Proof.
  assert (H1 : preprocessRequest
                 (FilterSample.request "PUT" "baz" "text/plain" (inl "foo")) =
               (on_route "baz" "PUT" [foo], None)) by reflexivity.
  assert (H2 : request.id (on_route "baz" "PUT" [foo]) <> "") by discriminate.
  assert (H3 : request.method (on_route "baz" "PUT" [foo]) = "PUT"
               \/ request.method (on_route "baz" "PUT" [foo]) = "POST")
    by (left; reflexivity).
  split; [exact H1|]. split; [exact H2|]. split; [exact H3|].
  exact (proj2 (served_put_needs_a_route _ _ store H1 H2 H3)).
Defined.

Lemma delete_from_root_twice_witness :
  request.id (on_root "DELETE" [baz] ["foo"]) = ""
  /\ request.method (on_root "DELETE" [baz] ["foo"]) = "DELETE"
  /\ handle (fst (fst (handle store (on_root "DELETE" [baz] ["foo"]))))
       (on_root "DELETE" [baz] ["foo"]) =
     (fst (fst (handle store (on_root "DELETE" [baz] ["foo"]))),
      response.zero, updateMessage.zero).
Proof.
  assert (H1 : request.id (on_root "DELETE" [baz] ["foo"]) = "") by reflexivity.
  assert (H2 : request.method (on_root "DELETE" [baz] ["foo"]) = "DELETE")
    by reflexivity.
  split; [exact H1|]. split; [exact H2|].
  exact (delete_from_root_twice_is_silent store _ H1 H2).
Defined.

Lemma upsertRoutes_twice_witness :
  NoDup (routesToIDs [foo; bar])
  /\ NoDup (routesToIDs [foo1; baz])
  /\ upsertRoutes (fst (upsertRoutes [foo; bar] [foo1; baz])) [foo1; baz] =
     (fst (upsertRoutes [foo; bar] [foo1; baz]), []).
Proof.
  assert (H1 : NoDup (routesToIDs [foo; bar])) by exact NoDup_foo_bar.
  assert (H2 : NoDup (routesToIDs [foo1; baz]))
    by (repeat constructor; simpl; intuition discriminate).
  split; [exact H1|]. split; [exact H2|].
  exact (upsertRoutes_twice_is_silent [foo; bar] [foo1; baz] H1 H2).
Defined.

(** The filter on whole requests: a listing, a request the filter turns
    away, and OPTIONS. *)
Example serve_listing :
  ServeHTTP pending (FilterSample.request "GET" "" "" (inl "")) =
    replied pending
      [Header_Set "Content-Type" "text/plain";
       Write "foo;__config;__config__singleRoute"]
  /\ ServeHTTP pending
       (FilterSample.request "PUT" "baz" "text/plain" (inl "foo;bar")) =
     replied pending
       [WriteHeader http.StatusBadRequest; Write "no multiple routes allowed"]
  /\ ServeHTTP halted (FilterSample.request "OPTIONS" "" "" (inl "")) =
     replied halted
       [Header_Set "Allow" "HEAD, GET, PUT, POST, PATCH";
        WriteHeader http.StatusOK;
        Write APIDescription].
Proof. repeat split. Qed.

End MoreWitnesses.
